(** * Position aggregation front end: pricing, reconciliation, referral
      resolution and the transaction handlers of [App].

    The development embeds the pure parts of the React component [App]
    (the AMM quote [calculateBurnValue] and its inverse
    [calculateMinTokenAmount], the reconciled position fields, the two
    inviter resolutions) as functions over [Z] and [string], and the
    asynchronous click handlers as programs of a small state-and-exception
    monad that are run against a scripted outside world. *)

From Stdlib Require Import ZArith Bool List String Ascii Lia.
Import ListNotations.

Local Open Scope Z_scope.

(** ** BigInt arithmetic

    A JavaScript [bigint] is an unbounded integer: [Z].  Its division
    truncates towards zero ([Z.quot]) and raises a [RangeError] on a zero
    divisor, which is what the [try]/[catch] blocks of the pricing functions
    can observe; [None] stands for the raised exception. *)

Definition bigint_div (a b : Z) : option Z :=
  if b =? 0 then None else Some (Z.quot a b).

(** [try { return e } catch { return d }] around a computation whose only
    possible exception is the one of [bigint_div]. *)
Definition try_or (d : Z) (e : option Z) : Z :=
  match e with
  | Some v => v
  | None => d
  end.

Module AMM.

(** The two callbacks close over the component state [tokenReserve] and
    [bnbReserve]; they are the first two arguments here. *)

Definition calculateBurnValue (tokenReserve bnbReserve amountIn : Z) : Z :=
  if (amountIn <=? 0) || (tokenReserve <=? 0) || (bnbReserve <=? 0) then 0
  else
    try_or 0
      (let amountInWithFee := amountIn * 997 in
       let numerator := amountInWithFee * bnbReserve in
       let denominator := tokenReserve * 1000 + amountInWithFee in
       bigint_div numerator denominator).

Definition calculateMinTokenAmount (tokenReserve bnbReserve minValue : Z) : Z :=
  if (minValue <=? 0) || (tokenReserve <=? 0) || (bnbReserve <=? 0) then 0
  else
    try_or 0
      (let numerator := tokenReserve * minValue * 1000 in
       let denominator := (bnbReserve - minValue) * 997 in
       match bigint_div numerator denominator with
       | Some minAmount => bigint_div (minAmount * 101) 100
       | None => None
       end).

(** The forward quote as the specification writes it, with the floor
    division of exact integers. *)
Definition amountOut_floor (amountIn reserveIn reserveOut : Z) : Z :=
  (amountIn * 997 * reserveOut) / (reserveIn * 1000 + amountIn * 997).

End AMM.


(** ** JavaScript strings

    A string is a sequence of code units; [string] holds the code units
    0..255, which covers every character the parsers below distinguish
    except the white space above U+00FF. *)

Module JS.

Local Open Scope string_scope.

(** Truthiness of a [string]: everything but the empty string. *)
Definition truthy (s : string) : bool :=
  match s with
  | EmptyString => false
  | String _ _ => true
  end.

(** Truthiness of a [string | null] (or [string | undefined]). *)
Definition truthy_opt (s : option string) : bool :=
  match s with
  | Some v => truthy v
  | None => false
  end.

Definition startsWith (p s : string) : bool := String.prefix p s.

Fixpoint drop (n : nat) (s : string) : string :=
  match n, s with
  | O, _ => s
  | S k, String _ r => drop k r
  | S _, EmptyString => EmptyString
  end.

(** [hay.includes(needle)] *)
Fixpoint includes (needle hay : string) : bool :=
  String.prefix needle hay
  || match hay with
     | EmptyString => false
     | String _ r => includes needle r
     end.

(** [s.slice(0, n)] *)
Definition slice0 (n : nat) (s : string) : string := String.substring 0 n s.

Definition code (c : ascii) : Z := Z.of_N (N_of_ascii c).

Definition in_range (lo hi : Z) (c : ascii) : bool :=
  (lo <=? code c)%Z && (code c <=? hi)%Z.

(** White space and line terminators below U+0100: TAB, LF, VT, FF, CR,
    SP and NBSP. *)
Definition isStrWhiteSpaceChar (c : ascii) : bool :=
  in_range 9 13 c || (code c =? 32)%Z || (code c =? 160)%Z.

Fixpoint trimStart (s : string) : string :=
  match s with
  | EmptyString => EmptyString
  | String c r => if isStrWhiteSpaceChar c then trimStart r else s
  end.

Fixpoint trimEnd (s : string) : string :=
  match s with
  | EmptyString => EmptyString
  | String c r =>
      match trimEnd r with
      | EmptyString => if isStrWhiteSpaceChar c then EmptyString else String c EmptyString
      | r' => String c r'
      end
  end.

Definition trim (s : string) : string := trimEnd (trimStart s).

(** Value of one digit in the given radix, [None] when the character is
    not a digit of that radix. *)
Definition digitValue (radix : Z) (c : ascii) : option Z :=
  let v :=
    if in_range 48 57 c then Some (code c - 48)%Z
    else if in_range 97 122 c then Some (code c - 87)%Z
    else if in_range 65 90 c then Some (code c - 55)%Z
    else None in
  match v with
  | Some d => if (d <? radix)%Z then Some d else None
  | None => None
  end.

Fixpoint digitsVal (radix acc : Z) (s : string) : option Z :=
  match s with
  | EmptyString => Some acc
  | String c r =>
      match digitValue radix c with
      | Some d => digitsVal radix (acc * radix + d)%Z r
      | None => None
      end
  end.

(** One or more digits. *)
Definition parseDigits (radix : Z) (s : string) : option Z :=
  match s with
  | EmptyString => None
  | String _ _ => digitsVal radix 0%Z s
  end.

(** [BigInt(s)] on a string argument (StringToBigInt): surrounding white
    space is ignored, the empty literal is zero, a decimal literal may carry
    a sign, and [0x], [0o], [0b] introduce unsigned literals in radix 16, 8
    and 2.  [None] is the [SyntaxError]. *)
Definition BigInt (s : string) : option Z :=
  let t := trim s in
  if negb (truthy t) then Some 0%Z
  else if startsWith "0x" t || startsWith "0X" t then parseDigits 16 (drop 2 t)
  else if startsWith "0o" t || startsWith "0O" t then parseDigits 8 (drop 2 t)
  else if startsWith "0b" t || startsWith "0B" t then parseDigits 2 (drop 2 t)
  else if startsWith "+" t then parseDigits 10 (drop 1 t)
  else if startsWith "-" t then option_map Z.opp (parseDigits 10 (drop 1 t))
  else parseDigits 10 t.

End JS.

(** ** Account addresses (the ethers library) *)

Module Ethers.

Local Open Scope string_scope.

Definition ZeroAddress : string := "0x0000000000000000000000000000000000000000".

(** The two checksums of the library are hash computations outside this
    repository; the address syntax around them is what the callers here
    depend on. *)
Record Checksums : Type := {
  getChecksumAddress : string -> string;
  ibanChecksum : string -> string
}.

Definition isHexDigit (c : ascii) : bool :=
  JS.in_range 48 57 c || JS.in_range 97 102 c || JS.in_range 65 70 c.

Definition isAlnum (c : ascii) : bool :=
  JS.in_range 48 57 c || JS.in_range 97 122 c || JS.in_range 65 90 c.

Fixpoint all_chars (p : ascii -> bool) (s : string) : bool :=
  match s with
  | EmptyString => true
  | String c r => p c && all_chars p r
  end.

Fixpoint any_char (p : ascii -> bool) (s : string) : bool :=
  match s with
  | EmptyString => false
  | String c r => p c || any_char p r
  end.

(** [/^(0x)?[0-9a-fA-F]{40}$/] *)
Definition matches_hex40 (s : string) : bool :=
  let body := if JS.startsWith "0x" s then JS.drop 2 s else s in
  Nat.eqb (String.length body) 40 && all_chars isHexDigit body.

(** [/([A-F].*[a-f])|([a-f].*[A-F])/] on a string of hexadecimal digits
    behind [0x]: an upper-case and a lower-case letter both occur. *)
Definition mixed_case (s : string) : bool :=
  any_char (JS.in_range 65 70) s && any_char (JS.in_range 97 102) s.

(** [/^XE[0-9]{2}[0-9A-Za-z]{30,31}$/] *)
Definition matches_icap (s : string) : bool :=
  JS.startsWith "XE" s
  && all_chars (JS.in_range 48 57) (String.substring 2 2 s)
  && Nat.eqb (String.length (String.substring 2 2 s)) 2
  && all_chars isAlnum (JS.drop 4 s)
  && (Nat.eqb (String.length (JS.drop 4 s)) 30
      || Nat.eqb (String.length (JS.drop 4 s)) 31).

(** [ethers.isAddress(value)]: [getAddress(value)] does not throw. *)
Definition isAddress (cs : Checksums) (value : string) : bool :=
  if matches_hex40 value then
    let address := if JS.startsWith "0x" value then value else "0x" ++ value in
    negb (mixed_case address) || String.eqb (getChecksumAddress cs address) address
  else if matches_icap value then
    String.eqb (String.substring 2 2 value) (ibanChecksum cs value)
  else false.

End Ethers.

(** ** Inviter resolution *)

Module Referral.

Local Open Scope string_scope.

(** [inviterFromUrl]: the [ref] query parameter when it is an address,
    the empty string otherwise.  The argument is what
    [params.get('ref')] returned. *)
Definition inviterFromUrl (cs : Ethers.Checksums) (ref : option string) : string :=
  match ref with
  | Some inviter =>
      if JS.truthy inviter && Ethers.isAddress cs inviter then inviter else ""
  | None => ""
  end.

(** The state [inviter] after the mount effect that handles the URL: it
    starts empty and [setInviter] has no other caller. *)
Definition inviter_of_url (ref : option string) : string :=
  match ref with
  | Some r => if JS.truthy r && JS.startsWith "0x" r then r else ""
  | None => ""
  end.

(** [x && x !== ethers.ZeroAddress] for a [string | null]. *)
Definition bound (x : option string) : bool :=
  match x with
  | Some a => JS.truthy a && negb (String.eqb a Ethers.ZeroAddress)
  | None => false
  end.

Definition or_zero (x : option string) : string :=
  match x with
  | Some a => a
  | None => Ethers.ZeroAddress
  end.

(** [inviterAddr] of [handleBurn]. *)
Definition burn_inviterAddr
    (inviter : string) (inviterOnchain rootInviter : option string) : string :=
  if JS.truthy inviter && JS.startsWith "0x" inviter then inviter
  else if bound inviterOnchain then or_zero inviterOnchain
  else if bound rootInviter then or_zero rootInviter
  else Ethers.ZeroAddress.

(** [inviterAddress] of [handleSubscribe]. *)
Definition subscribe_inviterAddress (cs : Ethers.Checksums)
    (nftInviterOnchain : option string)
    (nftSubInviter inviterFromUrl nftSubRootInviter : string) : string :=
  if bound nftInviterOnchain then or_zero nftInviterOnchain
  else if JS.truthy nftSubInviter && Ethers.isAddress cs nftSubInviter then nftSubInviter
  else if JS.truthy inviterFromUrl then inviterFromUrl
  else if JS.truthy nftSubRootInviter && Ethers.isAddress cs nftSubRootInviter
       then nftSubRootInviter
  else Ethers.ZeroAddress.

(** The priority chain in the specification's words: the first present
    candidate of the ordered list, the zero address when there is none. *)
Fixpoint first_present (candidates : list (option string)) : string :=
  match candidates with
  | [] => Ethers.ZeroAddress
  | Some a :: _ => a
  | None :: rest => first_present rest
  end.

(** A candidate that passed the given presence test. *)
Definition candidate (present : bool) (a : string) : option string :=
  if present then Some a else None.

End Referral.

(** ** Reconciliation of the on-chain and the off-chain position *)

Module Reconciler.

Record Thresholds : Type := {
  minHoldingValue : option string;
  minLossValue : option string
}.

Record OffchainStatus : Type := {
  costBasis : option string;
  soldValue : option string;
  currentHoldingValue : option string;
  lossAmount : option string;
  canClaim : option bool;
  thresholds : option Thresholds
}.

Record LossSnapshot : Type := {
  snap_costBasis : Z;
  snap_soldValue : Z;
  dividendReceived : Z
}.

Record CachedLoss : Type := {
  loss : Z;
  valid : bool
}.

Definition parseWeiString (value : option string) : Z :=
  if negb (JS.truthy_opt value) then 0
  else
    match value with
    | Some v => try_or 0 (JS.BigInt v)
    | None => 0
    end.

(** What one render derives from the component state. *)
Section Render.

Variable offchainStatus : option OffchainStatus.
Variable lossSnapshot : LossSnapshot.
Variable cachedLoss : CachedLoss.
Variable holdingValue : Z.

Definition offchainCostBasis : Z :=
  match offchainStatus with Some o => parseWeiString (costBasis o) | None => 0 end.
Definition offchainSoldValue : Z :=
  match offchainStatus with Some o => parseWeiString (soldValue o) | None => 0 end.
Definition offchainHoldingValue : Z :=
  match offchainStatus with Some o => parseWeiString (currentHoldingValue o) | None => 0 end.
Definition offchainLossAmount : Z :=
  match offchainStatus with Some o => parseWeiString (lossAmount o) | None => 0 end.

Definition effectiveCostBasis : Z :=
  match offchainStatus with
  | Some _ => offchainCostBasis
  | None => snap_costBasis lossSnapshot
  end.
Definition effectiveSoldValue : Z :=
  match offchainStatus with
  | Some _ => offchainSoldValue
  | None => snap_soldValue lossSnapshot
  end.
Definition effectiveHoldingValue : Z :=
  match offchainStatus with
  | Some _ => offchainHoldingValue
  | None => holdingValue
  end.
Definition effectiveLossAmount : Z :=
  match offchainStatus with
  | Some _ => offchainLossAmount
  | None => if valid cachedLoss then loss cachedLoss else 0
  end.

End Render.

(** A decimal numeral in the specification's sense: one or more of the
    digits 0 to 9, read in positional notation. *)
Definition is_decimal_numeral (s : string) : bool :=
  JS.truthy s && Ethers.all_chars (JS.in_range 48 57) s.

Fixpoint little_endian_value (digits : list Z) : Z :=
  match digits with
  | [] => 0
  | d :: ds => d + 10 * little_endian_value ds
  end.

Definition decimal_value (s : string) : Z :=
  little_endian_value
    (rev (map (fun c => JS.code c - 48) (list_ascii_of_string s))).

(** The part of the component state the position figures depend on, and
    the updates the component performs on it.  [fetchOffchainStatus] is the
    only caller of [setOffchainStatus]; the other three setters are called
    by [loadContractData] with whatever the chain returned. *)
Record Position : Type := {
  offchainStatus : option OffchainStatus;
  lossSnapshot : LossSnapshot;
  cachedLoss : CachedLoss;
  holdingValue : Z
}.

Definition initial : Position :=
  {| offchainStatus := None;
     lossSnapshot := {| snap_costBasis := 0; snap_soldValue := 0; dividendReceived := 0 |};
     cachedLoss := {| loss := 0; valid := false |};
     holdingValue := 0 |}.

(** The body of [fetchOffchainStatus]: the request is commented out and
    the snapshot is cleared. *)
Definition fetchOffchainStatus (p : Position) : Position :=
  {| offchainStatus := None;
     lossSnapshot := lossSnapshot p;
     cachedLoss := cachedLoss p;
     holdingValue := holdingValue p |}.

Definition setLossSnapshot (v : LossSnapshot) (p : Position) : Position :=
  {| offchainStatus := offchainStatus p;
     lossSnapshot := v;
     cachedLoss := cachedLoss p;
     holdingValue := holdingValue p |}.

Definition setCachedLoss (v : CachedLoss) (p : Position) : Position :=
  {| offchainStatus := offchainStatus p;
     lossSnapshot := lossSnapshot p;
     cachedLoss := v;
     holdingValue := holdingValue p |}.

Definition setHoldingValue (v : Z) (p : Position) : Position :=
  {| offchainStatus := offchainStatus p;
     lossSnapshot := lossSnapshot p;
     cachedLoss := cachedLoss p;
     holdingValue := v |}.

Inductive step : Position -> Position -> Prop :=
| step_fetch : forall p, step p (fetchOffchainStatus p)
| step_snapshot : forall p v, step p (setLossSnapshot v p)
| step_cached : forall p v, step p (setCachedLoss v p)
| step_holding : forall p v, step p (setHoldingValue v p).

Inductive reachable : Position -> Prop :=
| reach_initial : reachable initial
| reach_step : forall p q, reachable p -> step p q -> reachable q.

Definition eff_costBasis (p : Position) : Z :=
  effectiveCostBasis (offchainStatus p) (lossSnapshot p).
Definition eff_soldValue (p : Position) : Z :=
  effectiveSoldValue (offchainStatus p) (lossSnapshot p).
Definition eff_holdingValue (p : Position) : Z :=
  effectiveHoldingValue (offchainStatus p) (holdingValue p).
Definition eff_lossAmount (p : Position) : Z :=
  effectiveLossAmount (offchainStatus p) (cachedLoss p).

Local Open Scope string_scope.

(** The reading of a field in the specification's words: the field as a
    decimal numeral, zero when it is absent or is not one. *)
Definition decimal_or_zero (value : option string) : Z :=
  match value with
  | Some s => if is_decimal_numeral s then decimal_value s else 0
  | None => 0
  end.

(** The reading of a field as a [BigInt] literal, zero when it is absent
    or is not one. *)
Definition bigint_or_zero (value : option string) : Z :=
  match value with
  | Some s =>
      match JS.BigInt s with
      | Some z => z
      | None => 0
      end
  | None => 0
  end.

(** The prefixes of the literals that are not decimal, with their radix. *)
Definition literal_prefixes : list (string * Z) :=
  [("0x", 16); ("0X", 16); ("0o", 8); ("0O", 8); ("0b", 2); ("0B", 2)].

Definition no_space (c : ascii) : bool := negb (JS.isStrWhiteSpaceChar c).

(** A snapshot whose cost basis is written in hexadecimal. *)
Definition hex_offchain : OffchainStatus :=
  {| costBasis := Some "0x10";
     soldValue := None;
     currentHoldingValue := None;
     lossAmount := None;
     canClaim := None;
     thresholds := None |}.

(** A snapshot, an on-chain position and a reachable state to evaluate the
    definitions on. *)

Definition sample_offchain : OffchainStatus :=
  {| costBasis := Some "2500";
     soldValue := Some "abc";
     currentHoldingValue := None;
     lossAmount := Some "40";
     canClaim := Some true;
     thresholds := None |}.

Definition sample_snapshot : LossSnapshot :=
  {| snap_costBasis := 7; snap_soldValue := 8; dividendReceived := 9 |}.

Definition sample_invalid_loss : CachedLoss := {| loss := 55; valid := false |}.

Definition sample_position : Position :=
  setHoldingValue 300
    (setCachedLoss {| loss := 12; valid := true |}
       (setLossSnapshot sample_snapshot (fetchOffchainStatus initial))).

End Reconciler.

(** ** The transaction handlers

    A handler is an [async] function: it updates the component state
    through the setters, awaits operations of the outside world (contract
    reads, transaction submissions, confirmations) which either return or
    reject, and handles rejections with [try]/[catch]/[finally].  The
    handlers of one render close over the same values, gathered in
    [Closure]. *)

Module Orchestrator.

Local Open Scope string_scope.
Local Open Scope Z_scope.

Inductive ClaimKind : Type :=
| ClaimBurnBNB | ClaimBurnToken | ClaimLoss | ClaimNft | ClaimNftMint.

(** The tag each claim handler passes to [setLastAction]. *)
Definition claim_action (k : ClaimKind) : string :=
  match k with
  | ClaimBurnBNB => "claimBurnBNB"
  | ClaimBurnToken => "claimBurnToken"
  | ClaimLoss => "claimLoss"
  | ClaimNft => "claimNft"
  | ClaimNftMint => "claimNftMint"
  end.

Inductive Alert : Type :=
| AlertBelowMinBurn
| AlertLiquidity
| AlertAllowance
| AlertRaw (shown : string)
| AlertBurnValue
| AlertBalance
| AlertSwitchNetwork
| AlertSubscribed.

(** What a handler does to the outside world, in the order it does it.
    [WaitTx] is [await tx.wait()] and [Refresh] is
    [await loadContractData()]; the latter catches its own failures, which
    the worlds that never reject it describe. *)
Inductive Event : Type :=
| ReadAllowance
| SendApprove
| SendBurn (amount : Z) (inviter : string)
| SendClaim (k : ClaimKind)
| SendSubscribe (inviter : string) (value : Z)
| WaitTx
| Refresh
| ReadBalance
| ReadTwoLevel
| ReadTeam
| OpenModal
| SwitchNetwork
| ShowAlert (a : Alert).

(** An awaited operation returns a value (a number for the reads, ignored
    for the others) or rejects with a message. *)
Inductive Reply : Type :=
| Returns (v : Z)
| Rejects (msg : string).

(** The outside world: the outcome of the n-th awaited operation. *)
Definition World : Type := nat -> Reply.

Record TxState : Type := {
  isPending : bool;
  lastAction : option string;
  burnAmount : string;
  nftSubTwoLevel : Z;
  nftSubTeam : Z
}.

Definition setIsPending' (b : bool) (u : TxState) : TxState :=
  {| isPending := b; lastAction := lastAction u; burnAmount := burnAmount u;
     nftSubTwoLevel := nftSubTwoLevel u; nftSubTeam := nftSubTeam u |}.
Definition setLastAction' (a : option string) (u : TxState) : TxState :=
  {| isPending := isPending u; lastAction := a; burnAmount := burnAmount u;
     nftSubTwoLevel := nftSubTwoLevel u; nftSubTeam := nftSubTeam u |}.
Definition setBurnAmount' (x : string) (u : TxState) : TxState :=
  {| isPending := isPending u; lastAction := lastAction u; burnAmount := x;
     nftSubTwoLevel := nftSubTwoLevel u; nftSubTeam := nftSubTeam u |}.
Definition setNftSubTwoLevel' (x : Z) (u : TxState) : TxState :=
  {| isPending := isPending u; lastAction := lastAction u; burnAmount := burnAmount u;
     nftSubTwoLevel := x; nftSubTeam := nftSubTeam u |}.
Definition setNftSubTeam' (x : Z) (u : TxState) : TxState :=
  {| isPending := isPending u; lastAction := lastAction u; burnAmount := burnAmount u;
     nftSubTwoLevel := nftSubTwoLevel u; nftSubTeam := x |}.

(** The machine is idle when nothing is pending and no action is active. *)
Definition idle (u : TxState) : Prop :=
  isPending u = false /\ lastAction u = None.

(** A run: the component state, the events so far (oldest first) and the
    number of operations awaited so far. *)
Record Run : Type := {
  ui : TxState;
  log : list Event;
  clock : nat
}.

Inductive Result (A : Type) : Type :=
| Val (a : A)
| Exn (msg : string)
| Fuel.
Arguments Val {A} a.
Arguments Exn {A} msg.
Arguments Fuel {A}.

Definition M (A : Type) : Type := World -> Run -> Result A * Run.

Definition ret {A} (a : A) : M A := fun _ r => (Val a, r).

Definition bind {A B} (m : M A) (k : A -> M B) : M B :=
  fun w r =>
    match m w r with
    | (Val a, r') => k a w r'
    | (Exn msg, r') => (Exn msg, r')
    | (Fuel, r') => (Fuel, r')
    end.

Notation "x <- m ;; k" := (bind m (fun x => k))
  (at level 61, m at next level, right associativity).
Notation "m ;;; k" := (bind m (fun _ => k))
  (at level 61, right associativity).

Definition throw {A} (msg : string) : M A := fun _ r => (Exn msg, r).

(** The recursion bound was reached: the handler is still running. *)
Definition out_of_fuel {A} : M A := fun _ r => (Fuel, r).

Definition update (f : TxState -> TxState) : M unit :=
  fun _ r => (Val tt, {| ui := f (ui r); log := log r; clock := clock r |}).

Definition setIsPending (b : bool) : M unit := update (setIsPending' b).
Definition setLastAction (a : option string) : M unit := update (setLastAction' a).
Definition setBurnAmount (x : string) : M unit := update (setBurnAmount' x).
Definition setNftSubTwoLevel (x : Z) : M unit := update (setNftSubTwoLevel' x).
Definition setNftSubTeam (x : Z) : M unit := update (setNftSubTeam' x).

(** An effect that is not awaited and cannot fail. *)
Definition emit (e : Event) : M unit :=
  fun _ r => (Val tt, {| ui := ui r; log := log r ++ [e]; clock := clock r |}).

(** [await] of an operation of the outside world. *)
Definition call (e : Event) : M Z :=
  fun w r =>
    let r' := {| ui := ui r; log := log r ++ [e]; clock := S (clock r) |} in
    match w (clock r) with
    | Returns v => (Val v, r')
    | Rejects msg => (Exn msg, r')
    end.

Definition try_catch {A} (m : M A) (h : string -> M A) : M A :=
  fun w r =>
    match m w r with
    | (Exn msg, r') => h msg w r'
    | other => other
    end.

Definition try_finally {A} (m : M A) (f : M unit) : M A :=
  fun w r =>
    match m w r with
    | (Fuel, r') => (Fuel, r')
    | (out, r') =>
        match f w r' with
        | (Val _, r'') => (out, r'')
        | (Exn msg, r'') => (Exn msg, r'')
        | (Fuel, r'') => (Fuel, r'')
        end
    end.

(** A call of an [async] function whose promise is dropped: its effects
    happen, its outcome is not observed. *)
Definition detach (m : M unit) : M unit :=
  fun w r =>
    match m w r with
    | (Fuel, r') => (Fuel, r')
    | (_, r') => (Val tt, r')
    end.

(** The values the handlers of one render close over.  [signer] tells
    whether the signer is non-null, [nftSubscriptionConfigured] whether
    [CONTRACTS.nftSubscription] is set and is not the zero address. *)
Record Closure : Type := {
  isConnected : bool;
  chainId : option Z;
  signer : bool;
  address : option string;
  tokenAddress : option string;
  allowance : Z;
  parsedBurnAmount : Z;
  minBurnValue : Z;
  tokenReserve : Z;
  bnbReserve : Z;
  inviter : string;
  inviterOnchain : option string;
  rootInviter : option string;
  nftSubscriptionConfigured : bool;
  nftSubPrice : Z;
  nftInviterOnchain : option string;
  nftSubInviter : string;
  inviterFromUrl : string;
  nftSubRootInviter : string
}.

Section Handlers.

Variable cs : Ethers.Checksums.
Variable c : Closure.

Definition isApproveNeeded : bool :=
  if parsedBurnAmount c <=? 0 then false
  else allowance c <? parsedBurnAmount c.

(** [burnValueCheck.isValid] *)
Definition burnValueCheck_isValid : bool :=
  if parsedBurnAmount c <=? 0 then false
  else
    negb (AMM.calculateBurnValue (tokenReserve c) (bnbReserve c) (parsedBurnAmount c)
          <? minBurnValue c).

Definition inviterAddr : string :=
  Referral.burn_inviterAddr (inviter c) (inviterOnchain c) (rootInviter c).

Definition inviterAddress : string :=
  Referral.subscribe_inviterAddress cs (nftInviterOnchain c)
    (nftSubInviter c) (inviterFromUrl c) (nftSubRootInviter c).

(** The [catch] block of [handleBurn]. *)
Definition burn_failed (msg : string) : M unit :=
  if JS.includes "BELOW_MIN_BURN_VALUE" msg then emit (ShowAlert AlertBelowMinBurn)
  else if JS.includes "PancakeLibrary: INSUFFICIENT_INPUT_AMOUNT" msg
       then emit (ShowAlert AlertLiquidity)
  else if JS.includes "exceeds allowance" msg then emit (ShowAlert AlertAllowance)
  else emit (ShowAlert (AlertRaw (JS.slice0 100 msg))).

(** The first block of [handleBurn]: the allowance is read afresh and,
    when it is below the amount, the approval handler is started and
    [handleBurn] returns.  The result tells whether it returned there. *)
Definition burn_check_allowance (handleApprove : M unit) : M bool :=
  if JS.truthy_opt (tokenAddress c) then
    try_catch
      (currentAllowance <- call ReadAllowance ;;
       if currentAllowance <? parsedBurnAmount c
       then detach handleApprove ;;; ret true
       else ret false)
      (fun _ => ret false)
  else ret false.

(** The rest of [handleBurn]: the submission. *)
Definition burn_submit : M unit :=
  setIsPending true ;;;
  setLastAction (Some "burn") ;;;
  try_finally
    (try_catch
       (call (SendBurn (parsedBurnAmount c) inviterAddr) ;;;
        call WaitTx ;;;
        setBurnAmount "" ;;;
        call Refresh ;;;
        ret tt)
       burn_failed)
    (setIsPending false ;;; setLastAction None).

(** [handleBurn], with the approval handler it redirects to as an
    argument. *)
Definition handleBurn_with (handleApprove : M unit) : M unit :=
  if negb (signer c) then ret tt
  else
    returned <- burn_check_allowance handleApprove ;;
    if (returned : bool) then ret tt else burn_submit.

Fixpoint handleApprove (fuel : nat) : M unit :=
  match fuel with
  | O => out_of_fuel
  | S n =>
      if negb (signer c) || negb (JS.truthy_opt (tokenAddress c)) then ret tt
      else
        setIsPending true ;;;
        setLastAction (Some "approve") ;;;
        try_catch
          (call SendApprove ;;;
           call WaitTx ;;;
           call Refresh ;;;
           handleBurn_with (handleApprove n))
          (fun _ => setIsPending false ;;; setLastAction None)
  end.

Definition handleBurn (fuel : nat) : M unit :=
  handleBurn_with (handleApprove fuel).

(** The click handler of the burn button. *)
Definition onBurnClick (fuel : nat) (burnAmountText : string) : M unit :=
  if JS.truthy burnAmountText then
    if negb burnValueCheck_isValid then emit (ShowAlert AlertBurnValue)
    else if isApproveNeeded then handleApprove fuel
    else handleBurn fuel
  else ret tt.

(** [handleClaimBurnBNB], [handleClaimBurnToken], [handleClaimLossDiv],
    [handleClaimNftDiv] and [handleClaimNFT] differ in the contract
    method they call and in their tag only. *)
Definition handleClaim (k : ClaimKind) : M unit :=
  if negb (signer c) then ret tt
  else
    setIsPending true ;;;
    setLastAction (Some (claim_action k)) ;;;
    try_finally
      (try_catch
         (call (SendClaim k) ;;;
          call WaitTx ;;;
          call Refresh ;;;
          ret tt)
         (fun _ => ret tt))
      (setIsPending false ;;; setLastAction None).

Definition handleClaimBurnBNB : M unit := handleClaim ClaimBurnBNB.
Definition handleClaimBurnToken : M unit := handleClaim ClaimBurnToken.
Definition handleClaimLossDiv : M unit := handleClaim ClaimLoss.
Definition handleClaimNftDiv : M unit := handleClaim ClaimNft.
Definition handleClaimNFT : M unit := handleClaim ClaimNftMint.

Definition on_bsc : bool :=
  match chainId c with
  | Some n => n =? 56
  | None => false
  end.

Definition handleSubscribe : M unit :=
  if negb (isConnected c) then emit OpenModal
  else if negb on_bsc then
    try_catch (call SwitchNetwork ;;; ret tt)
              (fun _ => emit (ShowAlert AlertSwitchNetwork))
  else if negb (signer c) then ret tt
  else if negb (JS.truthy_opt (address c)) then ret tt
  else
    stop <-
      try_catch
        (balance <- call ReadBalance ;;
         if balance <? nftSubPrice c
         then emit (ShowAlert AlertBalance) ;;; ret true
         else ret false)
        (fun _ => ret false) ;;
    if (stop : bool) then ret tt
    else
      setIsPending true ;;;
      setLastAction (Some "subscribe") ;;;
      try_finally
        (try_catch
           (if negb (nftSubscriptionConfigured c)
            then throw "Subscription contract not configured"
            else
              call (SendSubscribe inviterAddress (nftSubPrice c)) ;;;
              call WaitTx ;;;
              emit (ShowAlert AlertSubscribed) ;;;
              twoLevel <- call ReadTwoLevel ;;
              team <- call ReadTeam ;;
              setNftSubTwoLevel twoLevel ;;;
              setNftSubTeam team)
           (fun _ => ret tt))
        (setIsPending false).

End Handlers.

(** A run that starts in the given component state. *)
Definition start (u : TxState) : Run := {| ui := u; log := []; clock := 0 |}.

Definition idle0 : TxState :=
  {| isPending := false; lastAction := None; burnAmount := "";
     nftSubTwoLevel := 0; nftSubTeam := 0 |}.

(** A handler settles when it either is still running at the recursion
    bound or has left the machine idle. *)
Definition settles (m : M unit) : Prop :=
  forall (w : World) (r : Run),
    fst (m w r) = Fuel \/ idle (ui (snd (m w r))).

(** A handler only adds to the log. *)
Definition extends {A : Type} (m : M A) : Prop :=
  forall (w : World) (r : Run),
    exists rest, log (snd (m w r)) = (log r ++ rest)%list.

(** The token part of the component state.  [loadContractData] calls
    [setTokenAddress] with the string [token()] returned (the zero address
    when the call failed) and, later in the same run and only when that
    string is not the zero address, [setTokenBalance]. *)
Record TokenView : Type := {
  view_tokenAddress : option string;
  view_tokenBalance : Z
}.

Definition token_initial : TokenView :=
  {| view_tokenAddress := None; view_tokenBalance := 0 |}.

Inductive token_step : TokenView -> TokenView -> Prop :=
| token_step_address : forall v tAddr,
    JS.truthy tAddr = true ->
    token_step v {| view_tokenAddress := Some tAddr;
                    view_tokenBalance := view_tokenBalance v |}
| token_step_balance : forall v balance,
    JS.truthy_opt (view_tokenAddress v) = true ->
    token_step v {| view_tokenAddress := view_tokenAddress v;
                    view_tokenBalance := balance |}.

Inductive token_reachable : TokenView -> Prop :=
| token_reach_initial : token_reachable token_initial
| token_reach_step : forall v v',
    token_reachable v -> token_step v v' -> token_reachable v'.

(** The burn button is enabled: the negation of its [disabled] attribute. *)
Definition burn_button_enabled
    (pending connected : bool) (parsed : Z) (v : TokenView) : bool :=
  negb (pending || negb connected || (parsed <=? 0) || (view_tokenBalance v =? 0)).

(** Closures and worlds to evaluate the handlers on. *)
Definition sample_checksums : Ethers.Checksums :=
  {| Ethers.getChecksumAddress := fun a => a;
     Ethers.ibanChecksum := fun _ => "00" |}.

(** A connected account on chain 56 that asks to burn 2e18 while the
    allowance cached by the last poll is 1e18. *)
Definition sample_closure : Closure :=
  {| isConnected := true;
     chainId := Some 56;
     signer := true;
     address := Some "0x00000000000000000000000000000000000000aa";
     tokenAddress := Some "0x00000000000000000000000000000000000000bb";
     allowance := 1000000000000000000;
     parsedBurnAmount := 2000000000000000000;
     minBurnValue := 0;
     tokenReserve := 1000000000000000000000000;
     bnbReserve := 10000000000000000000;
     inviter := "";
     inviterOnchain := None;
     rootInviter := None;
     nftSubscriptionConfigured := true;
     nftSubPrice := 100;
     nftInviterOnchain := None;
     nftSubInviter := "";
     inviterFromUrl := "";
     nftSubRootInviter := "" |}.

(** Every operation succeeds and every read returns 5e18. *)
Definition generous_world : World := fun _ => Returns 5000000000000000000.

(** Every operation succeeds and every read returns 0. *)
Definition barren_world : World := fun _ => Returns 0.

End Orchestrator.

(** ** A burn below the threshold

    A pool of 1,000,000 tokens against 10 BNB, a minimum burn value of
    0.05 BNB and a request to burn 100 tokens, with an allowance that covers
    it. *)

Module Scenario.

Import Orchestrator.
Local Open Scope string_scope.
Local Open Scope Z_scope.

Definition shallow_burn : Closure :=
  {| isConnected := true;
     chainId := Some 56;
     signer := true;
     address := Some "0x00000000000000000000000000000000000000aa";
     tokenAddress := Some "0x00000000000000000000000000000000000000bb";
     allowance := 1000000000000000000000;
     parsedBurnAmount := 100000000000000000000;
     minBurnValue := 50000000000000000;
     tokenReserve := 1000000000000000000000000;
     bnbReserve := 10000000000000000000;
     inviter := "";
     inviterOnchain := None;
     rootInviter := None;
     nftSubscriptionConfigured := true;
     nftSubPrice := 100;
     nftInviterOnchain := None;
     nftSubInviter := "";
     inviterFromUrl := "";
     nftSubRootInviter := "" |}.

(** The approval is rejected by the wallet. *)
Definition refusing_world : World := fun _ => Rejects "user rejected action".

(** The run after an awaited operation. *)
Definition after (e : Event) (r : Run) : Run :=
  {| ui := ui r; log := log r ++ [e]; clock := S (clock r) |}.

(** [hay] contains [needle]. *)
Definition contains (needle hay : string) : Prop :=
  exists pre post, hay = pre ++ needle ++ post.

End Scenario.

(** ** The contract registry and the refresh

    [loadContractData] reads the contracts group by group.  Every read of
    a group carries its own [catch] with a default, so a run is determined
    by the outcome of each read it may perform: [Some v] when the read
    returned [v], [None] when it was rejected. *)

Module Reader.

Local Open Scope string_scope.
Local Open Scope Z_scope.

Record Contracts : Type := {
  token : string;
  pair : string;
  taxFeeReceiver : string;
  burnDividend : string;
  performanceNFT : string;
  nftDividend : string;
  nftSubscription : string;
  lossDividend : string;
  burnToken : string
}.

Definition BSC_CONTRACTS : Contracts :=
  {| token := Ethers.ZeroAddress;
     pair := Ethers.ZeroAddress;
     taxFeeReceiver := Ethers.ZeroAddress;
     burnDividend := Ethers.ZeroAddress;
     performanceNFT := "0x9Fa9620784C9691F4Df5d2e16fb2851D7132dB3E";
     nftDividend := Ethers.ZeroAddress;
     nftSubscription := "0xC1Cc75899e689d117e6Bc942C4c4Cb508b194B7C";
     lossDividend := Ethers.ZeroAddress;
     burnToken := Ethers.ZeroAddress |}.

Definition LOCAL_CONTRACTS : Contracts :=
  {| token := Ethers.ZeroAddress;
     pair := Ethers.ZeroAddress;
     taxFeeReceiver := Ethers.ZeroAddress;
     burnDividend := Ethers.ZeroAddress;
     performanceNFT := Ethers.ZeroAddress;
     nftDividend := Ethers.ZeroAddress;
     nftSubscription := Ethers.ZeroAddress;
     lossDividend := Ethers.ZeroAddress;
     burnToken := Ethers.ZeroAddress |}.

Definition getContracts (chainId : option Z) : Contracts :=
  match chainId with
  | Some n => if (n =? 31337) || (n =? 1337) then LOCAL_CONTRACTS else BSC_CONTRACTS
  | None => BSC_CONTRACTS
  end.

(** [a && a !== ethers.ZeroAddress] *)
Definition configured (a : string) : bool :=
  JS.truthy a && negb (String.eqb a Ethers.ZeroAddress).

(** [call().catch(() => d)] *)
Definition read {A : Type} (outcome : option A) (d : A) : A :=
  match outcome with
  | Some v => v
  | None => d
  end.

(** [x || 0n] *)
Definition or0 (x : Z) : Z := if x =? 0 then 0 else x.

(** [toLowerCase] on the code units below U+0100: the letters A to Z and
    the capital letters from U+00C0 to U+00DE, the multiplication sign
    apart, move up by 32. *)
Definition lower_char (c : ascii) : ascii :=
  if JS.in_range 65 90 c
     || (JS.in_range 192 222 c && negb (JS.code c =? 215))
  then ascii_of_N (N_of_ascii c + 32)
  else c.

Fixpoint toLowerCase (s : string) : string :=
  match s with
  | EmptyString => EmptyString
  | String c r => String (lower_char c) (toLowerCase r)
  end.

(** [token0.toLowerCase() === tokenAddr.toLowerCase()] *)
Definition same_token (token0 tokenAddr : string) : bool :=
  String.eqb (toLowerCase token0) (toLowerCase tokenAddr).

(** [BigInt(1e18)] *)
Definition ether : Z := 1000000000000000000.

(** The holding value the refresh stores: the balance at the pool price,
    both kept to 18 decimals. *)
Definition holding_of (bal tokenReserve bnbReserve : Z) : Z :=
  let price := Z.quot (bnbReserve * ether) tokenReserve in
  Z.quot (bal * price) ether.

(** *** The component state the refresh writes *)

Record Registry : Type := {
  tokenAddress : option string;
  rootInviter : option string;
  inviterOnchain : option string;
  myBurnedValue : Z;
  totalBurnedValue : Z;
  inviteeCount : Z;
  minBurnValue : Z
}.

Record TokenInfo : Type := {
  tokenSymbol : string;
  tokenBalance : Z;
  allowance : Z
}.

Record BurnDividend : Type := {
  burnUnpaidBNB : Z;
  burnUnpaidToken : Z
}.

Record NftSubscription : Type := {
  nftSubPrice : Z;
  nftSubTwoLevel : Z;
  nftSubTeam : Z;
  nftSubRootInviter : string;
  nftInviterOnchain : option string
}.

Record LossDividend : Type := {
  lossSnapshot : Reconciler.LossSnapshot;
  cachedLoss : Reconciler.CachedLoss;
  lossPendingDividend : Z;
  lossContractBalance : Z
}.

Record Pool : Type := {
  tokenReserve : Z;
  bnbReserve : Z;
  holdingValue : Z
}.

Record NftUserInfo : Type := {
  performance : Z;
  nftCount : Z;
  pendingDividends : Z
}.

Record NftDividend : Type := {
  nftUserInfo : NftUserInfo;
  claimableNfts : Z
}.

Record Data : Type := {
  offchainStatus : option Reconciler.OffchainStatus;
  registry : Registry;
  tokenInfo : TokenInfo;
  burnDiv : BurnDividend;
  nftSub : NftSubscription;
  lossDiv : LossDividend;
  pool : Pool;
  nftDiv : NftDividend
}.

(** The initial values of the state hooks. *)
Definition initial : Data :=
  {| offchainStatus := None;
     registry := {| tokenAddress := None; rootInviter := None;
                    inviterOnchain := None; myBurnedValue := 0;
                    totalBurnedValue := 0; inviteeCount := 0;
                    minBurnValue := 0 |};
     tokenInfo := {| tokenSymbol := "TOKEN"; tokenBalance := 0; allowance := 0 |};
     burnDiv := {| burnUnpaidBNB := 0; burnUnpaidToken := 0 |};
     nftSub := {| nftSubPrice := 0; nftSubTwoLevel := 0; nftSubTeam := 0;
                  nftSubRootInviter := ""; nftInviterOnchain := None |};
     lossDiv := {| lossSnapshot :=
                     {| Reconciler.snap_costBasis := 0;
                        Reconciler.snap_soldValue := 0;
                        Reconciler.dividendReceived := 0 |};
                   cachedLoss := {| Reconciler.loss := 0; Reconciler.valid := false |};
                   lossPendingDividend := 0;
                   lossContractBalance := 0 |};
     pool := {| tokenReserve := 0; bnbReserve := 0; holdingValue := 0 |};
     nftDiv := {| nftUserInfo := {| performance := 0; nftCount := 0;
                                    pendingDividends := 0 |};
                  claimableNfts := 0 |} |}.

Definition with_offchainStatus (v : option Reconciler.OffchainStatus) (d : Data) : Data :=
  {| offchainStatus := v; registry := registry d; tokenInfo := tokenInfo d;
     burnDiv := burnDiv d; nftSub := nftSub d; lossDiv := lossDiv d;
     pool := pool d; nftDiv := nftDiv d |}.
Definition with_registry (v : Registry) (d : Data) : Data :=
  {| offchainStatus := offchainStatus d; registry := v; tokenInfo := tokenInfo d;
     burnDiv := burnDiv d; nftSub := nftSub d; lossDiv := lossDiv d;
     pool := pool d; nftDiv := nftDiv d |}.
Definition with_tokenInfo (v : TokenInfo) (d : Data) : Data :=
  {| offchainStatus := offchainStatus d; registry := registry d; tokenInfo := v;
     burnDiv := burnDiv d; nftSub := nftSub d; lossDiv := lossDiv d;
     pool := pool d; nftDiv := nftDiv d |}.
Definition with_burnDiv (v : BurnDividend) (d : Data) : Data :=
  {| offchainStatus := offchainStatus d; registry := registry d;
     tokenInfo := tokenInfo d; burnDiv := v; nftSub := nftSub d;
     lossDiv := lossDiv d; pool := pool d; nftDiv := nftDiv d |}.
Definition with_nftSub (v : NftSubscription) (d : Data) : Data :=
  {| offchainStatus := offchainStatus d; registry := registry d;
     tokenInfo := tokenInfo d; burnDiv := burnDiv d; nftSub := v;
     lossDiv := lossDiv d; pool := pool d; nftDiv := nftDiv d |}.
Definition with_lossDiv (v : LossDividend) (d : Data) : Data :=
  {| offchainStatus := offchainStatus d; registry := registry d;
     tokenInfo := tokenInfo d; burnDiv := burnDiv d; nftSub := nftSub d;
     lossDiv := v; pool := pool d; nftDiv := nftDiv d |}.
Definition with_pool (v : Pool) (d : Data) : Data :=
  {| offchainStatus := offchainStatus d; registry := registry d;
     tokenInfo := tokenInfo d; burnDiv := burnDiv d; nftSub := nftSub d;
     lossDiv := lossDiv d; pool := v; nftDiv := nftDiv d |}.
Definition with_nftDiv (v : NftDividend) (d : Data) : Data :=
  {| offchainStatus := offchainStatus d; registry := registry d;
     tokenInfo := tokenInfo d; burnDiv := burnDiv d; nftSub := nftSub d;
     lossDiv := lossDiv d; pool := pool d; nftDiv := v |}.

(** *** The outcomes of the reads of one run *)

Record Reads : Type := {
  code_burnToken : option string;
  bt_token : option string;
  bt_rootInviter : option string;
  bt_inviterOf : option string;
  bt_burnedValueOf : option Z;
  bt_totalBurnedValue : option Z;
  bt_inviteeCount : option Z;
  bt_minBurnValue : option Z;
  tk_symbol : option string;
  tk_balanceOf : option Z;
  tk_allowance : option Z;
  bd_getUnpaidDividendBNB : option Z;
  bd_getUnpaidDividendToken : option Z;
  code_nftSubscription : option string;
  ns_pricePerShare : option Z;
  ns_getTwoLevelSubscribed : option Z;
  ns_teamSubscribed : option Z;
  ns_rootInviter : option string;
  ns_inviterOf : option string;
  ld_userSnapshots : option (Z * Z * Z);
  ld_getCachedLoss : option (Z * bool);
  ld_getBalance : option Z;
  ld_totalDividendsAllocated : option Z;
  ld_totalDividendsClaimed : option Z;
  ld_getUnpaidDividend : option Z;
  ld_pool : option string;
  pr_getReserves : option (Z * Z);
  pr_token0 : option string;
  pr_balanceOf : option Z;
  nd_getUserInfo : option (Z * Z * Z * Z);
  nd_getClaimableNFTCount : option Z
}.

Section Refresh.

Variable CONTRACTS : Contracts.
Variable rd : Reads.

(** The burn registry.  [None] is the rejection of [getCode], which no
    [catch] of the group handles; otherwise the result carries the local
    [tokenAddr]. *)
Definition load_registry (d : Data) : option (string * Data) :=
  if configured (burnToken CONTRACTS) then
    match code_burnToken rd with
    | None => None
    | Some code =>
        if negb (String.eqb code "0x") then
          let tAddr := read (bt_token rd) Ethers.ZeroAddress in
          Some (tAddr,
                with_registry
                  {| tokenAddress := Some tAddr;
                     rootInviter := bt_rootInviter rd;
                     inviterOnchain := Some (read (bt_inviterOf rd) Ethers.ZeroAddress);
                     myBurnedValue := read (bt_burnedValueOf rd) 0;
                     totalBurnedValue := read (bt_totalBurnedValue rd) 0;
                     inviteeCount := read (bt_inviteeCount rd) 0;
                     minBurnValue := read (bt_minBurnValue rd) 0 |} d)
        else Some (Ethers.ZeroAddress, d)
    end
  else Some (Ethers.ZeroAddress, d).

Definition load_token (tokenAddr : string) (d : Data) : Data :=
  if configured tokenAddr then
    with_tokenInfo
      {| tokenSymbol := read (tk_symbol rd) "TOKEN";
         tokenBalance := read (tk_balanceOf rd) 0;
         allowance := read (tk_allowance rd) 0 |} d
  else d.

Definition load_burnDividend (d : Data) : Data :=
  with_burnDiv
    {| burnUnpaidBNB := read (bd_getUnpaidDividendBNB rd) 0;
       burnUnpaidToken := read (bd_getUnpaidDividendToken rd) 0 |} d.

Definition load_nftSubscription (d : Data) : Data :=
  if configured (nftSubscription CONTRACTS) then
    match code_nftSubscription rd with
    | None => d
    | Some code =>
        if negb (String.eqb code "0x") then
          with_nftSub
            {| nftSubPrice := read (ns_pricePerShare rd) 0;
               nftSubTwoLevel := read (ns_getTwoLevelSubscribed rd) 0;
               nftSubTeam := read (ns_teamSubscribed rd) 0;
               nftSubRootInviter := read (ns_rootInviter rd) "";
               nftInviterOnchain := Some (read (ns_inviterOf rd) Ethers.ZeroAddress) |} d
        else d
    end
  else d.

(** The holding value block of the loss dividend group. *)
Definition load_pool (tokenAddr : string) (d : Data) : Data :=
  let poolAddr := read (ld_pool rd) Ethers.ZeroAddress in
  if configured poolAddr && configured tokenAddr then
    let reserves := read (pr_getReserves rd) (0, 0) in
    let token0 := read (pr_token0 rd) Ethers.ZeroAddress in
    if String.eqb token0 Ethers.ZeroAddress then d
    else
      let isToken0 := same_token token0 tokenAddr in
      let tokenReserve' := if isToken0 then fst reserves else snd reserves in
      let bnbReserve' := if isToken0 then snd reserves else fst reserves in
      let d1 :=
        with_pool {| tokenReserve := tokenReserve'; bnbReserve := bnbReserve';
                     holdingValue := holdingValue (pool d) |} d in
      if tokenReserve' >? 0 then
        match pr_balanceOf rd with
        | Some bal =>
            with_pool {| tokenReserve := tokenReserve'; bnbReserve := bnbReserve';
                         holdingValue := holding_of bal tokenReserve' bnbReserve' |} d
        | None => d1
        end
      else d1
  else d.

Definition load_lossDividend (tokenAddr : string) (d : Data) : Data :=
  if configured (lossDividend CONTRACTS) then
    let snapshot := read (ld_userSnapshots rd) (0, 0, 0) in
    let cached := read (ld_getCachedLoss rd) (0, false) in
    let contractBalance := read (ld_getBalance rd) 0 in
    let totalAllocated := read (ld_totalDividendsAllocated rd) 0 in
    let totalClaimed := read (ld_totalDividendsClaimed rd) 0 in
    let totalReceived := contractBalance + totalClaimed in
    let availableBalance :=
      if totalReceived >? totalAllocated then totalReceived - totalAllocated else 0 in
    let currentLoss := if snd cached then fst cached else 0 in
    let pending :=
      if currentLoss >? 0 then read (ld_getUnpaidDividend rd) 0 else 0 in
    load_pool tokenAddr
      (with_lossDiv
         {| lossSnapshot :=
              {| Reconciler.snap_costBasis := or0 (fst (fst snapshot));
                 Reconciler.snap_soldValue := or0 (snd (fst snapshot));
                 Reconciler.dividendReceived := or0 (snd snapshot) |};
            cachedLoss :=
              {| Reconciler.loss := or0 (fst cached);
                 Reconciler.valid := snd cached || false |};
            lossPendingDividend := pending;
            lossContractBalance := availableBalance |} d)
  else
    with_lossDiv
      {| lossSnapshot :=
           {| Reconciler.snap_costBasis := 0; Reconciler.snap_soldValue := 0;
              Reconciler.dividendReceived := 0 |};
         cachedLoss := {| Reconciler.loss := 0; Reconciler.valid := false |};
         lossPendingDividend := 0;
         lossContractBalance := 0 |} d.

Definition load_nftDividend (d : Data) : Data :=
  let userInfo := read (nd_getUserInfo rd) (0, 0, 0, 0) in
  with_nftDiv
    {| nftUserInfo :=
         {| performance := or0 (fst (fst (fst userInfo)));
            nftCount := or0 (snd (fst (fst userInfo)));
            pendingDividends := or0 (snd userInfo) |};
       claimableNfts := read (nd_getClaimableNFTCount rd) 0 |} d.

Definition loadContractData (address : option string) (d : Data) : Data :=
  let d0 := with_offchainStatus None d in
  if negb (JS.truthy_opt address) then d0
  else
    match load_registry d0 with
    | None => d0
    | Some (tokenAddr, d1) =>
        load_nftDividend
          (load_lossDividend tokenAddr
             (load_nftSubscription
                (load_burnDividend
                   (load_token tokenAddr d1))))
    end.

End Refresh.

(** The states of the contract data: the initial one, those after a
    refresh whose contract set and reads satisfy [ok], and those after the
    subscription handler stored the two counters it read.  Refreshes are
    composed one after the other: a state in which a second refresh wrote
    between two writes of a first one is not described, so only what every
    single write keeps is an invariant of the component. *)
Inductive reachable (ok : Contracts -> Reads -> Prop) : Data -> Prop :=
| reach_initial : reachable ok initial
| reach_refresh : forall d CONTRACTS rd address,
    reachable ok d -> ok CONTRACTS rd ->
    reachable ok (loadContractData CONTRACTS rd address d)
| reach_subscribed : forall d twoLevel team,
    reachable ok d ->
    reachable ok
      (with_nftSub
         {| nftSubPrice := nftSubPrice (nftSub d);
            nftSubTwoLevel := twoLevel;
            nftSubTeam := team;
            nftSubRootInviter := nftSubRootInviter (nftSub d);
            nftInviterOnchain := nftInviterOnchain (nftSub d) |} d).

Definition any_run (_ : Contracts) (_ : Reads) : Prop := True.

(** The contract set is the one [getContracts] returns for some chain. *)
Definition shipped (CONTRACTS : Contracts) (_ : Reads) : Prop :=
  exists chainId, CONTRACTS = getContracts chainId.

(** The registry answers [token()] with an address, never with an empty
    string. *)
Definition token_read_nonempty (_ : Contracts) (rd : Reads) : Prop :=
  bt_token rd <> Some "".

(** The position the reconciler works on. *)
Definition position_of (d : Data) : Reconciler.Position :=
  {| Reconciler.offchainStatus := offchainStatus d;
     Reconciler.lossSnapshot := lossSnapshot (lossDiv d);
     Reconciler.cachedLoss := cachedLoss (lossDiv d);
     Reconciler.holdingValue := holdingValue (pool d) |}.

(** What the burn button looks at. *)
Definition view_of (d : Data) : Orchestrator.TokenView :=
  {| Orchestrator.view_tokenAddress := tokenAddress (registry d);
     Orchestrator.view_tokenBalance := tokenBalance (tokenInfo d) |}.

(** Reads of a run in which every call is rejected. *)
Definition all_rejected : Reads :=
  {| code_burnToken := None; bt_token := None; bt_rootInviter := None;
     bt_inviterOf := None; bt_burnedValueOf := None; bt_totalBurnedValue := None;
     bt_inviteeCount := None; bt_minBurnValue := None; tk_symbol := None;
     tk_balanceOf := None; tk_allowance := None;
     bd_getUnpaidDividendBNB := None; bd_getUnpaidDividendToken := None;
     code_nftSubscription := None; ns_pricePerShare := None;
     ns_getTwoLevelSubscribed := None; ns_teamSubscribed := None;
     ns_rootInviter := None; ns_inviterOf := None; ld_userSnapshots := None;
     ld_getCachedLoss := None; ld_getBalance := None;
     ld_totalDividendsAllocated := None; ld_totalDividendsClaimed := None;
     ld_getUnpaidDividend := None; ld_pool := None; pr_getReserves := None;
     pr_token0 := None; pr_balanceOf := None; nd_getUserInfo := None;
     nd_getClaimableNFTCount := None |}.

(** A deployment with every contract in place, and the reads of a run on
    it: a pool of 1,000,000 tokens against 10 BNB, a balance of 500 tokens,
    a valid cached loss of 3 BNB with 0.2 BNB of dividend pending. *)
Definition full_deployment : Contracts :=
  {| token := "0x00000000000000000000000000000000000000bb";
     pair := "0x00000000000000000000000000000000000000cc";
     taxFeeReceiver := Ethers.ZeroAddress;
     burnDividend := "0x00000000000000000000000000000000000000d1";
     performanceNFT := Ethers.ZeroAddress;
     nftDividend := "0x00000000000000000000000000000000000000d2";
     nftSubscription := "0x00000000000000000000000000000000000000d3";
     lossDividend := "0x00000000000000000000000000000000000000d4";
     burnToken := "0x00000000000000000000000000000000000000d5" |}.

Definition healthy_reads : Reads :=
  {| code_burnToken := Some "0x6080";
     bt_token := Some "0x00000000000000000000000000000000000000Bb";
     bt_rootInviter := Some "0x00000000000000000000000000000000000000e1";
     bt_inviterOf := Some Ethers.ZeroAddress;
     bt_burnedValueOf := Some 0;
     bt_totalBurnedValue := Some 0;
     bt_inviteeCount := Some 0;
     bt_minBurnValue := Some 50000000000000000;
     tk_symbol := Some "FLAP";
     tk_balanceOf := Some 500000000000000000000;
     tk_allowance := Some 0;
     bd_getUnpaidDividendBNB := Some 0;
     bd_getUnpaidDividendToken := Some 0;
     code_nftSubscription := Some "0x6080";
     ns_pricePerShare := Some 100000000000000000;
     ns_getTwoLevelSubscribed := Some 0;
     ns_teamSubscribed := Some 0;
     ns_rootInviter := Some "0x00000000000000000000000000000000000000e1";
     ns_inviterOf := Some Ethers.ZeroAddress;
     ld_userSnapshots := Some (5000000000000000000, 1000000000000000000, 0);
     ld_getCachedLoss := Some (3000000000000000000, true);
     ld_getBalance := Some 1000000000000000000;
     ld_totalDividendsAllocated := Some 4000000000000000000;
     ld_totalDividendsClaimed := Some 2000000000000000000;
     ld_getUnpaidDividend := Some 200000000000000000;
     ld_pool := Some "0x00000000000000000000000000000000000000cc";
     pr_getReserves := Some (1000000000000000000000000, 10000000000000000000);
     pr_token0 := Some "0x00000000000000000000000000000000000000bb";
     pr_balanceOf := Some 500000000000000000000;
     nd_getUserInfo := Some (0, 0, 0, 0);
     nd_getClaimableNFTCount := Some 0 |}.

(** The stages of a refresh that went past the registry. *)
Definition stages (C : Contracts) (rd : Reads) (tokenAddr : string) (d1 : Data) : Data :=
  load_nftDividend rd
    (load_lossDividend C rd tokenAddr
       (load_nftSubscription C rd
          (load_burnDividend rd
             (load_token rd tokenAddr d1)))).

(** What holds of the loss dividend figures after whole refreshes. *)
Definition loss_consistent (l : LossDividend) : Prop :=
  0 <= lossContractBalance l
  /\ (lossPendingDividend l <> 0 ->
      Reconciler.valid (cachedLoss l) = true
      /\ 0 < Reconciler.loss (cachedLoss l)).

(** The state after one refresh of the healthy deployment. *)
Definition refreshed : Data :=
  loadContractData full_deployment healthy_reads
    (Some "0x00000000000000000000000000000000000000aa") initial.

End Reader.

(** ** The connection prompt

    One effect of [App] arms a timer of 800 ms while the account is not
    connected and the prompt has not been opened yet; its cleanup clears
    the timer.  The effect runs on mount and again whenever [isConnected],
    [hasAutoOpened] or [open] changes.  Time is left out: a timer is armed
    or not, and an armed timer may fire. *)

Module Prompt.

Record State : Type := {
  hasAutoOpened : bool;
  isConnected : bool;
  (** the armed timer, with the [isConnected] its callback closes over *)
  timer : option bool;
  (** how often the effect has called [open()] *)
  opened : nat
}.

(** The cleanup of the previous run, then the effect body. *)
Definition run_effect (s : State) : State :=
  {| hasAutoOpened := hasAutoOpened s;
     isConnected := isConnected s;
     timer := if negb (hasAutoOpened s) && negb (isConnected s)
              then Some (isConnected s) else None;
     opened := opened s |}.

Definition mount (connected : bool) : State :=
  run_effect {| hasAutoOpened := false; isConnected := connected;
                timer := None; opened := 0 |}.

(** The wallet connects or disconnects. *)
Definition connection (connected : bool) (s : State) : State :=
  run_effect {| hasAutoOpened := hasAutoOpened s; isConnected := connected;
                timer := timer s; opened := opened s |}.

(** The armed timer fires: its callback opens the modal unless the
    [isConnected] it closed over is true, and the state change runs the
    effect again. *)
Definition fire (s : State) : State :=
  match timer s with
  | Some false =>
      run_effect {| hasAutoOpened := true; isConnected := isConnected s;
                    timer := None; opened := S (opened s) |}
  | Some true =>
      {| hasAutoOpened := hasAutoOpened s; isConnected := isConnected s;
         timer := None; opened := opened s |}
  | None => s
  end.

Inductive step : State -> State -> Prop :=
| step_connection : forall s connected, step s (connection connected s)
| step_rerun : forall s, step s (run_effect s)
| step_fire : forall s, step s (fire s).

Inductive reachable : State -> Prop :=
| reach_mount : forall connected, reachable (mount connected)
| reach_step : forall s s', reachable s -> step s s' -> reachable s'.

End Prompt.

(** * Properties *)

(** ** The pricing functions *)

Module AMMFacts.

Import AMM.

Lemma bigint_div_pos (a b : Z) :
  0 <= a -> 0 < b -> bigint_div a b = Some (a / b).
Proof.
  intros Ha Hb. unfold bigint_div.
  destruct (Z.eqb_spec b 0) as [E | _]; [lia |].
  now rewrite Z.quot_div_nonneg by lia.
Qed.

Lemma guards_pass (x y z : Z) :
  0 < x -> 0 < y -> 0 < z ->
  (x <=? 0) || (y <=? 0) || (z <=? 0) = false.
Proof.
  intros Hx Hy Hz.
  destruct (Z.leb_spec x 0), (Z.leb_spec y 0), (Z.leb_spec z 0); simpl; lia.
Qed.

Lemma guards_stop (x y z : Z) :
  x <= 0 \/ y <= 0 \/ z <= 0 ->
  (x <=? 0) || (y <=? 0) || (z <=? 0) = true.
Proof.
  intros H.
  destruct (Z.leb_spec x 0), (Z.leb_spec y 0), (Z.leb_spec z 0); simpl; lia.
Qed.

Lemma calculateBurnValue_pos (tokenReserve bnbReserve amountIn : Z) :
  0 < amountIn -> 0 < tokenReserve -> 0 < bnbReserve ->
  calculateBurnValue tokenReserve bnbReserve amountIn
  = amountOut_floor amountIn tokenReserve bnbReserve.
Proof.
  intros Ha Hi Ho. unfold calculateBurnValue, amountOut_floor.
  rewrite guards_pass by assumption. cbv zeta.
  rewrite bigint_div_pos by nia. reflexivity.
Qed.

Lemma calculateBurnValue_guard (tokenReserve bnbReserve amountIn : Z) :
  amountIn <= 0 \/ tokenReserve <= 0 \/ bnbReserve <= 0 ->
  calculateBurnValue tokenReserve bnbReserve amountIn = 0.
Proof.
  intros H. unfold calculateBurnValue. now rewrite guards_stop.
Qed.

Lemma calculateBurnValue_nonneg (tokenReserve bnbReserve amountIn : Z) :
  0 <= calculateBurnValue tokenReserve bnbReserve amountIn.
Proof.
  destruct (Z_lt_le_dec 0 amountIn) as [Ha | Ha];
    [destruct (Z_lt_le_dec 0 tokenReserve) as [Hi | Hi];
     [destruct (Z_lt_le_dec 0 bnbReserve) as [Ho | Ho] |] |].
  - rewrite calculateBurnValue_pos by assumption.
    unfold amountOut_floor. apply Z.div_pos; nia.
  - rewrite calculateBurnValue_guard; lia.
  - rewrite calculateBurnValue_guard; lia.
  - rewrite calculateBurnValue_guard; lia.
Qed.

(** The quotient of the inverse before the margin, and the inverse, on the
    inputs where the denominator is positive. *)
Lemma calculateMinTokenAmount_pos (tokenReserve bnbReserve minValue : Z) :
  0 < tokenReserve -> 0 < minValue -> minValue < bnbReserve ->
  calculateMinTokenAmount tokenReserve bnbReserve minValue
  = (tokenReserve * minValue * 1000 / ((bnbReserve - minValue) * 997)) * 101 / 100.
Proof.
  intros Hi Hv Ho. unfold calculateMinTokenAmount.
  rewrite guards_pass by lia. cbv zeta.
  assert (Hn : 0 <= tokenReserve * minValue * 1000)
    by (apply Z.mul_nonneg_nonneg; [apply Z.mul_nonneg_nonneg |]; lia).
  assert (Hd : 0 < (bnbReserve - minValue) * 997) by lia.
  rewrite bigint_div_pos by assumption.
  rewrite bigint_div_pos; [reflexivity | | lia].
  apply Z.mul_nonneg_nonneg; [| lia].
  apply Z.div_pos; assumption.
Qed.

Lemma calculateMinTokenAmount_guard (tokenReserve bnbReserve minValue : Z) :
  minValue <= 0 \/ tokenReserve <= 0 \/ bnbReserve <= 0 ->
  calculateMinTokenAmount tokenReserve bnbReserve minValue = 0.
Proof.
  intros H. unfold calculateMinTokenAmount. now rewrite guards_stop.
Qed.

(** When the requested value equals the reserve the division raises and
    the handler of the exception returns zero. *)
Lemma calculateMinTokenAmount_whole_reserve (tokenReserve bnbReserve : Z) :
  calculateMinTokenAmount tokenReserve bnbReserve bnbReserve = 0.
Proof.
  unfold calculateMinTokenAmount.
  destruct ((bnbReserve <=? 0) || (tokenReserve <=? 0) || (bnbReserve <=? 0));
    [reflexivity |].
  cbv zeta. rewrite Z.sub_diag. reflexivity.
Qed.

(** Beyond the reserve the denominator is negative and nothing stops the
    computation: the result is negative as soon as the quotient is not
    rounded to zero. *)
Lemma calculateMinTokenAmount_beyond_reserve (tokenReserve bnbReserve minValue : Z) :
  0 < tokenReserve -> 0 < bnbReserve -> bnbReserve < minValue ->
  (minValue - bnbReserve) * 997 <= tokenReserve * minValue * 1000 ->
  calculateMinTokenAmount tokenReserve bnbReserve minValue < 0.
Proof.
  intros Hi Ho Hv Hq. unfold calculateMinTokenAmount.
  rewrite guards_pass by lia. cbv zeta. unfold bigint_div.
  destruct (Z.eqb_spec ((bnbReserve - minValue) * 997) 0) as [E | _]; [lia |].
  destruct (Z.eqb_spec 100 0) as [E | _]; [lia |]. cbv beta iota.
  assert (Hn : 0 <= tokenReserve * minValue * 1000)
    by (apply Z.mul_nonneg_nonneg; [apply Z.mul_nonneg_nonneg |]; lia).
  assert (Hd : 0 < (minValue - bnbReserve) * 997) by lia.
  replace ((bnbReserve - minValue) * 997)
    with (- ((minValue - bnbReserve) * 997)) by lia.
  generalize dependent (tokenReserve * minValue * 1000).
  generalize dependent ((minValue - bnbReserve) * 997).
  intros d Hd n Hq Hn.
  rewrite Z.quot_opp_r by lia.
  rewrite (Z.quot_div_nonneg n d) by lia.
  assert (Hq1 : 1 <= n / d) by (apply Z.div_le_lower_bound; lia).
  rewrite Z.mul_opp_l, Z.quot_opp_l by lia.
  rewrite Z.quot_div_nonneg by lia.
  assert (1 <= n / d * 101 / 100) by (apply Z.div_le_lower_bound; lia).
  simpl. lia.
Qed.

(** The floor of a quotient of positive terms grows with a numerator and
    denominator that keep their cross products in order. *)
Lemma div_cross_le (n1 d1 n2 d2 : Z) :
  0 <= n1 -> 0 < d1 -> 0 < d2 -> n1 * d2 <= n2 * d1 -> n1 / d1 <= n2 / d2.
Proof.
  intros Hn Hd1 Hd2 Hx.
  apply Z.div_le_lower_bound; [assumption |].
  pose proof (Z.mul_div_le n1 d1 Hd1) as Hq.
  assert (Hq0 : 0 <= n1 / d1) by (apply Z.div_pos; assumption).
  apply (Z.mul_le_mono_pos_r _ _ d1); [assumption |].
  transitivity (n1 * d2); [| assumption].
  replace (d2 * (n1 / d1) * d1) with (d2 * (d1 * (n1 / d1))) by ring.
  rewrite (Z.mul_comm n1 d2).
  apply Z.mul_le_mono_nonneg_l; lia.
Qed.

(** C4: with a positive input and positive reserves the forward quote is
    the floor of amountIn*997*reserveOut over reserveIn*1000 + amountIn*997
    in exact integers; with a non-positive input or reserve it is zero, so
    that no division by a zero or negative reserve takes place. *)
Theorem calculateBurnValue_spec (tokenReserve bnbReserve amountIn : Z) :
  (0 < amountIn -> 0 < tokenReserve -> 0 < bnbReserve ->
   calculateBurnValue tokenReserve bnbReserve amountIn
   = (amountIn * 997 * bnbReserve) / (tokenReserve * 1000 + amountIn * 997))
  /\ (amountIn <= 0 \/ tokenReserve <= 0 \/ bnbReserve <= 0 ->
      calculateBurnValue tokenReserve bnbReserve amountIn = 0).
Proof.
  split.
  - intros Ha Hi Ho. now rewrite calculateBurnValue_pos.
  - apply calculateBurnValue_guard.
Qed.

Lemma calculateBurnValue_spec_witness :
  (0 < 52 /\ 0 < 1000 /\ 0 < 1000000)
  /\ calculateBurnValue 1000 1000000 52 = 52 * 997 * 1000000 / (1000 * 1000 + 52 * 997)
  /\ (7 <= 0 \/ 0 <= 0 \/ 10 <= 0)
  /\ calculateBurnValue 0 10 7 = 0.
Proof.
  split; [lia |]. split; [| split; [lia |]].
  - apply (proj1 (calculateBurnValue_spec 1000 1000000 52)); lia.
  - apply (proj2 (calculateBurnValue_spec 0 10 7)); lia.
Defined.

(** C8: for positive reserves the forward quote does not decrease when the
    input grows from a1 to a2 with 0 <= a1 <= a2, and a zero input is
    quoted at zero. *)
Theorem calculateBurnValue_monotone (tokenReserve bnbReserve a1 a2 : Z) :
  0 < tokenReserve -> 0 < bnbReserve -> 0 <= a1 -> a1 <= a2 ->
  calculateBurnValue tokenReserve bnbReserve 0 = 0
  /\ calculateBurnValue tokenReserve bnbReserve a1
     <= calculateBurnValue tokenReserve bnbReserve a2.
Proof.
  intros Hi Ho H1 H12. split; [apply calculateBurnValue_guard; lia |].
  destruct (Z.eq_dec a1 0) as [-> | Hne].
  - rewrite (calculateBurnValue_guard _ _ 0) by lia.
    apply calculateBurnValue_nonneg.
  - rewrite !calculateBurnValue_pos by lia. unfold amountOut_floor.
    apply div_cross_le; [nia | nia | nia |].
    assert (H : a1 * tokenReserve <= a2 * tokenReserve)
      by (apply Z.mul_le_mono_nonneg_r; lia).
    assert (Hb : 0 <= 997 * bnbReserve * 1000) by lia.
    pose proof (Z.mul_le_mono_nonneg_l _ _ _ Hb H) as Hm.
    nia.
Qed.

Lemma calculateBurnValue_monotone_witness :
  (0 < 1000 /\ 0 < 1000000 /\ 0 <= 52 /\ 52 <= 53)
  /\ calculateBurnValue 1000 1000000 0 = 0
  /\ calculateBurnValue 1000 1000000 52 <= calculateBurnValue 1000 1000000 53.
Proof.
  split; [lia |].
  apply (calculateBurnValue_monotone 1000 1000000 52 53); lia.
Defined.

(** C2: the inverse is meant to be zero on every degenerate input,
    including a requested value above the output reserve.  On reserves
    (1000, 10) and a requested value of 11 the denominator is negative, no
    exception is raised and the function returns a negative amount. *)
Theorem calculateMinTokenAmount_above_reserve :
  (10 - 11 <= 0) /\ calculateMinTokenAmount 1000 10 11 = -11143.
Proof.
  split; [lia | reflexivity].
Qed.

(** C3: the margin of one percent is meant to make the inverse
    conservative.  With reserves (1000, 1000000) and a requested value of
    50000 the quotient before the margin is 52, the margin is rounded away,
    the inverse is 52 and the forward quote of 52 is 49288. *)
Theorem roundtrip_undershoots :
  (0 < 50000 /\ 50000 < 1000000)
  /\ calculateMinTokenAmount 1000 1000000 50000 = 52
  /\ calculateBurnValue 1000 1000000 52 = 49288
  /\ calculateBurnValue 1000 1000000 (calculateMinTokenAmount 1000 1000000 50000)
     < 50000.
Proof.
  split; [lia |]. repeat split.
Qed.

(** Where the margin is enough: for positive reserves and
    0 < minValue < reserveOut, the forward quote of the inverse is at least
    minValue whenever the quotient before the margin is at least 100 (so
    that the margin adds at least one unit) or the division that yields it
    is exact. *)
Lemma roundtrip_conservative (tokenReserve bnbReserve minValue : Z) :
  0 < tokenReserve -> 0 < bnbReserve ->
  0 < minValue -> minValue < bnbReserve ->
  100 * ((bnbReserve - minValue) * 997) <= tokenReserve * minValue * 1000
  \/ (tokenReserve * minValue * 1000) mod ((bnbReserve - minValue) * 997) = 0 ->
  minValue <=
  calculateBurnValue tokenReserve bnbReserve
    (calculateMinTokenAmount tokenReserve bnbReserve minValue).
Proof.
  intros Hi Ho Hv Hlt Hcase.
  rewrite calculateMinTokenAmount_pos by assumption.
  assert (Hn : 0 < tokenReserve * minValue * 1000) by nia.
  assert (Hd : 0 < (bnbReserve - minValue) * 997) by lia.
  assert (Hnd : tokenReserve * minValue * 1000
                = tokenReserve * 1000 * minValue) by ring.
  revert Hcase Hn Hd Hnd.
  generalize (tokenReserve * minValue * 1000) as n.
  intros n Hcase Hn Hd Hnd.
  set (x := n / ((bnbReserve - minValue) * 997) * 101 / 100).
  assert (Hx : n <= x * ((bnbReserve - minValue) * 997)).
  { pose proof (Z.div_mod n ((bnbReserve - minValue) * 997) ltac:(lia)) as Hdm.
    pose proof (Z.mod_pos_bound n ((bnbReserve - minValue) * 997) Hd) as Hm.
    assert (Hq0 : 0 <= n / ((bnbReserve - minValue) * 997))
      by (apply Z.div_pos; lia).
    revert Hdm Hm Hq0 Hcase. unfold x.
    generalize (n / ((bnbReserve - minValue) * 997)) as q.
    generalize (n mod ((bnbReserve - minValue) * 997)) as r.
    generalize dependent ((bnbReserve - minValue) * 997).
    intros d Hd _ r q Hdm Hm Hq0 Hcase.
    destruct Hcase as [Hbig | Hexact].
    - assert (Hq100 : 100 <= q) by nia.
      assert (Hx1 : q + 1 <= q * 101 / 100)
        by (apply Z.div_le_lower_bound; lia).
      nia.
    - assert (Hx0 : q <= q * 101 / 100)
        by (apply Z.div_le_lower_bound; lia).
      nia. }
  assert (Hxpos : 0 < x) by nia.
  rewrite calculateBurnValue_pos by assumption.
  unfold amountOut_floor.
  apply Z.div_le_lower_bound; nia.
Qed.

Example roundtrip_conservative_at_scale :
  (0 < 1000000 /\ 0 < 10000000 /\ 0 < 100000 /\ 100000 < 10000000
   /\ 100 * ((10000000 - 100000) * 997) <= 1000000 * 100000 * 1000)
  /\ 100000 <=
     calculateBurnValue 1000000 10000000
       (calculateMinTokenAmount 1000000 10000000 100000).
Proof.
  split; [lia |].
  apply (roundtrip_conservative 1000000 10000000 100000); lia.
Qed.

End AMMFacts.

(** ** Inviter resolution *)

Module ReferralFacts.

Import Referral.
Local Open Scope string_scope.

(** The subscription flow takes the first present candidate in the order
    on-chain binding, manual entry, URL value, root inviter. *)
Lemma subscribe_priority (cs : Ethers.Checksums)
    (onchain : option string) (manual url root : string) :
  subscribe_inviterAddress cs onchain manual url root
  = first_present
      [ candidate (bound onchain) (or_zero onchain);
        candidate (JS.truthy manual && Ethers.isAddress cs manual) manual;
        candidate (JS.truthy url) url;
        candidate (JS.truthy root && Ethers.isAddress cs root) root ].
Proof.
  unfold subscribe_inviterAddress, candidate.
  destruct (bound onchain); [reflexivity |].
  destruct (JS.truthy manual && Ethers.isAddress cs manual); [reflexivity |].
  destruct (JS.truthy url); [reflexivity |].
  destruct (JS.truthy root && Ethers.isAddress cs root); reflexivity.
Qed.

(** The burn flow takes the first present candidate in the order entered
    value, on-chain binding, root inviter. *)
Lemma burn_priority (inviter : string) (onchain root : option string) :
  burn_inviterAddr inviter onchain root
  = first_present
      [ candidate (JS.truthy inviter && JS.startsWith "0x" inviter) inviter;
        candidate (bound onchain) (or_zero onchain);
        candidate (bound root) (or_zero root) ].
Proof.
  unfold burn_inviterAddr, candidate.
  destruct (JS.truthy inviter && JS.startsWith "0x" inviter); [reflexivity |].
  destruct (bound onchain); [reflexivity |].
  destruct (bound root); reflexivity.
Qed.

Lemma subscribe_bound_wins (cs : Ethers.Checksums)
    (a manual url root : string) :
  bound (Some a) = true ->
  subscribe_inviterAddress cs (Some a) manual url root = a.
Proof.
  intros H. unfold subscribe_inviterAddress. now rewrite H.
Qed.

(** The URL value of the subscription flow is empty or an address. *)
Lemma inviterFromUrl_sound (cs : Ethers.Checksums) (ref : option string) :
  inviterFromUrl cs ref = ""
  \/ (ref = Some (inviterFromUrl cs ref)
      /\ Ethers.isAddress cs (inviterFromUrl cs ref) = true).
Proof.
  destruct ref as [r |]; simpl; [| now left].
  destruct (JS.truthy r); simpl; [| now left].
  destruct (Ethers.isAddress cs r) eqn:E; [right | now left].
  now split.
Qed.

Lemma inviterFromUrl_discards (cs : Ethers.Checksums) (r : string) :
  Ethers.isAddress cs r = false -> inviterFromUrl cs (Some r) = "".
Proof.
  intros H. simpl. rewrite H. now rewrite andb_false_r.
Qed.

(** C1: the resolution is meant to prefer the on-chain binding in both
    flows.  With an entered value 0x11..11, a binding to 0x22..22 and a
    root 0x33..33 the subscription flow resolves to the binding and the burn
    flow to the entered value. *)
Theorem burn_resolution_ignores_binding (cs : Ethers.Checksums) :
  let entered := "0x1111111111111111111111111111111111111111" in
  let bound_to := "0x2222222222222222222222222222222222222222" in
  let root := "0x3333333333333333333333333333333333333333" in
  bound (Some bound_to) = true
  /\ subscribe_inviterAddress cs (Some bound_to) entered entered root = bound_to
  /\ burn_inviterAddr entered (Some bound_to) (Some root) = entered
  /\ entered <> bound_to.
Proof.
  cbv zeta. repeat split; try reflexivity. discriminate.
Qed.

(** C9: a URL value that is not an address is meant to be dropped in every
    flow.  The value 0x123 is not an address and the subscription flow drops
    it, but the mount effect stores it in [inviter] and the burn flow
    resolves to it, whatever the binding and the root are. *)
Theorem burn_uses_malformed_url_value (cs : Ethers.Checksums)
    (onchain root : option string) :
  let ref := Some "0x123" in
  Ethers.isAddress cs "0x123" = false
  /\ inviterFromUrl cs ref = ""
  /\ burn_inviterAddr (inviter_of_url ref) onchain root = "0x123".
Proof.
  cbv zeta. repeat split; reflexivity.
Qed.

End ReferralFacts.

(** ** Reconciliation *)

Module ReconcilerFacts.

Import Reconciler.
Local Open Scope string_scope.
Local Open Scope Z_scope.

Lemma digit_not_space (c : ascii) :
  JS.in_range 48 57 c = true -> JS.isStrWhiteSpaceChar c = false.
Proof.
  unfold JS.isStrWhiteSpaceChar, JS.in_range. generalize (JS.code c) as z.
  intros z H.
  destruct (Z.leb_spec 48 z), (Z.leb_spec z 57), (Z.leb_spec 9 z),
    (Z.leb_spec z 13), (Z.eqb_spec z 32), (Z.eqb_spec z 160);
    simpl in *; try reflexivity; try discriminate; lia.
Qed.

Lemma digit_value (c : ascii) :
  JS.in_range 48 57 c = true -> JS.digitValue 10 c = Some (JS.code c - 48).
Proof.
  intros H. unfold JS.digitValue. rewrite H.
  unfold JS.in_range in H. apply andb_prop in H as [H1 H2].
  apply Z.leb_le in H1, H2.
  destruct (Z.ltb_spec (JS.code c - 48) 10); [reflexivity | lia].
Qed.

Lemma trimEnd_digits (s : string) :
  Ethers.all_chars (JS.in_range 48 57) s = true -> JS.trimEnd s = s.
Proof.
  induction s as [| c r IH]; simpl; [reflexivity |].
  intros H. apply andb_prop in H as [Hc Hr].
  rewrite (IH Hr). destruct r; [| reflexivity].
  now rewrite (digit_not_space c Hc).
Qed.

Lemma trim_numeral (s : string) :
  is_decimal_numeral s = true -> JS.trim s = s.
Proof.
  unfold is_decimal_numeral, JS.trim. intros H.
  apply andb_prop in H as [_ H].
  destruct s as [| c r]; [reflexivity |].
  pose proof H as H'. simpl in H'. apply andb_prop in H' as [Hc _].
  simpl JS.trimStart. rewrite (digit_not_space c Hc).
  now apply trimEnd_digits.
Qed.

(** A numeral does not start like a signed or prefixed literal. *)
Lemma numeral_no_prefix (c0 c1 : ascii) (p s : string) :
  JS.in_range 48 57 c1 = false ->
  is_decimal_numeral s = true ->
  p = String c0 (String c1 EmptyString) ->
  JS.startsWith p s = false.
Proof.
  intros Hc1 Hs ->. unfold is_decimal_numeral in Hs.
  apply andb_prop in Hs as [_ Hs]. unfold JS.startsWith.
  destruct s as [| a [| b r]]; simpl.
  - reflexivity.
  - destruct (Ascii.ascii_dec c0 a); reflexivity.
  - simpl in Hs. apply andb_prop in Hs as [_ Hs].
    apply andb_prop in Hs as [Hb _].
    destruct (Ascii.ascii_dec c0 a); [| reflexivity].
    destruct (Ascii.ascii_dec c1 b) as [-> |]; [congruence | reflexivity].
Qed.

Lemma numeral_no_sign (c0 : ascii) (s : string) :
  JS.in_range 48 57 c0 = false ->
  is_decimal_numeral s = true ->
  JS.startsWith (String c0 EmptyString) s = false.
Proof.
  intros Hc0 Hs. unfold is_decimal_numeral in Hs.
  apply andb_prop in Hs as [_ Hs]. unfold JS.startsWith.
  destruct s as [| a r]; simpl; [reflexivity |].
  simpl in Hs. apply andb_prop in Hs as [Ha _].
  destruct (Ascii.ascii_dec c0 a) as [-> |]; [congruence | reflexivity].
Qed.

Lemma little_endian_shift (l : list Z) (a d : Z) :
  little_endian_value (l ++ [a * 10 + d]) = little_endian_value (l ++ [d; a]).
Proof.
  induction l as [| x l IH]; cbn [app little_endian_value];
    [lia | now rewrite IH].
Qed.

Lemma little_endian_zero (l : list Z) :
  little_endian_value (l ++ [0]) = little_endian_value l.
Proof.
  induction l as [| x l IH]; cbn [app little_endian_value];
    [reflexivity | now rewrite IH].
Qed.

Lemma digitsVal_positional (s : string) (acc : Z) :
  Ethers.all_chars (JS.in_range 48 57) s = true ->
  JS.digitsVal 10 acc s
  = Some (little_endian_value
            (rev (map (fun c => JS.code c - 48) (list_ascii_of_string s)) ++ [acc])).
Proof.
  revert acc. induction s as [| c r IH]; intros acc H; simpl.
  - f_equal. lia.
  - simpl in H. apply andb_prop in H as [Hc Hr].
    rewrite (digit_value c Hc), (IH _ Hr), little_endian_shift.
    now rewrite <- app_assoc.
Qed.

(** On a decimal numeral [BigInt] returns its positional value. *)
Lemma BigInt_numeral (s : string) :
  is_decimal_numeral s = true -> JS.BigInt s = Some (decimal_value s).
Proof.
  intros H. unfold JS.BigInt. rewrite (trim_numeral s H).
  pose proof H as H'. unfold is_decimal_numeral in H'.
  apply andb_prop in H' as [Ht Hd]. rewrite Ht. simpl negb. cbv iota.
  rewrite (numeral_no_prefix "0"%char "x"%char "0x" s eq_refl H eq_refl).
  rewrite (numeral_no_prefix "0"%char "X"%char "0X" s eq_refl H eq_refl).
  rewrite (numeral_no_prefix "0"%char "o"%char "0o" s eq_refl H eq_refl).
  rewrite (numeral_no_prefix "0"%char "O"%char "0O" s eq_refl H eq_refl).
  rewrite (numeral_no_prefix "0"%char "b"%char "0b" s eq_refl H eq_refl).
  rewrite (numeral_no_prefix "0"%char "B"%char "0B" s eq_refl H eq_refl).
  rewrite (numeral_no_sign "+"%char s eq_refl H).
  rewrite (numeral_no_sign "-"%char s eq_refl H).
  simpl orb. cbv iota.
  unfold JS.parseDigits. destruct s as [| c r]; [discriminate |].
  rewrite (digitsVal_positional _ 0 Hd), little_endian_zero. reflexivity.
Qed.

Lemma parseWeiString_numeral (s : string) :
  is_decimal_numeral s = true -> parseWeiString (Some s) = decimal_value s.
Proof.
  intros H. unfold parseWeiString. simpl JS.truthy_opt.
  pose proof H as H'. unfold is_decimal_numeral in H'.
  apply andb_prop in H' as [Ht _]. rewrite Ht. simpl.
  now rewrite (BigInt_numeral s H).
Qed.

Lemma parseWeiString_failure (s : string) :
  JS.BigInt s = None -> parseWeiString (Some s) = 0.
Proof.
  intros H. unfold parseWeiString. rewrite H.
  destruct (negb (JS.truthy_opt (Some s))); reflexivity.
Qed.

Example parse_wei_numeral : parseWeiString (Some "1500000000000000000") = 1500000000000000000.
Proof. reflexivity. Qed.

Example parse_wei_garbage : parseWeiString (Some "1.5e18") = 0.
Proof. reflexivity. Qed.

Example parse_wei_absent : parseWeiString None = 0 /\ parseWeiString (Some "") = 0.
Proof. split; reflexivity. Qed.

(** *** What [BigInt] reads *)

Lemma digitValue_no_space (radix : Z) (c : ascii) (d : Z) :
  JS.digitValue radix c = Some d -> no_space c = true.
Proof.
  unfold JS.digitValue, no_space, JS.isStrWhiteSpaceChar, JS.in_range.
  generalize (JS.code c) as z. intros z.
  destruct (Z.leb_spec 48 z), (Z.leb_spec z 57), (Z.leb_spec 97 z),
    (Z.leb_spec z 122), (Z.leb_spec 65 z), (Z.leb_spec z 90),
    (Z.leb_spec 9 z), (Z.leb_spec z 13), (Z.eqb_spec z 32), (Z.eqb_spec z 160);
    simpl; intros E; try reflexivity; try discriminate; lia.
Qed.

Lemma digitsVal_no_space (radix : Z) (s : string) (acc v : Z) :
  JS.digitsVal radix acc s = Some v -> Ethers.all_chars no_space s = true.
Proof.
  revert acc. induction s as [| c r IH]; intros acc; simpl; [reflexivity |].
  destruct (JS.digitValue radix c) as [d |] eqn:Ed; [| discriminate].
  intros E. rewrite (digitValue_no_space radix c d Ed). simpl. exact (IH _ E).
Qed.

Lemma parseDigits_no_space (radix : Z) (s : string) (v : Z) :
  JS.parseDigits radix s = Some v ->
  Ethers.all_chars no_space s = true /\ JS.truthy s = true.
Proof.
  unfold JS.parseDigits. destruct s as [| c r]; [discriminate |].
  intros E. split; [exact (digitsVal_no_space _ _ _ _ E) | reflexivity].
Qed.

Lemma trimEnd_no_space (s : string) :
  Ethers.all_chars no_space s = true -> JS.trimEnd s = s.
Proof.
  induction s as [| c r IH]; simpl; [reflexivity |].
  intros H. apply andb_prop in H as [Hc Hr].
  rewrite (IH Hr). destruct r; [| reflexivity].
  unfold no_space in Hc. apply negb_true_iff in Hc. now rewrite Hc.
Qed.

Lemma trim_no_space (s : string) :
  Ethers.all_chars no_space s = true -> JS.trim s = s.
Proof.
  intros H. unfold JS.trim.
  destruct s as [| c r]; [reflexivity |].
  pose proof H as H'. simpl in H'. apply andb_prop in H' as [Hc _].
  unfold no_space in Hc. apply negb_true_iff in Hc.
  simpl JS.trimStart. rewrite Hc. now apply trimEnd_no_space.
Qed.

Lemma trimEnd_idempotent (s : string) : JS.trimEnd (JS.trimEnd s) = JS.trimEnd s.
Proof.
  induction s as [| c r IH]; [reflexivity |].
  simpl. destruct (JS.trimEnd r) as [| c' r'] eqn:Er.
  - destruct (JS.isStrWhiteSpaceChar c) eqn:Ec; [reflexivity |].
    simpl. now rewrite Ec.
  - change (JS.trimEnd (String c (String c' r')))
      with (match JS.trimEnd (String c' r') with
            | EmptyString =>
                if JS.isStrWhiteSpaceChar c then EmptyString
                else String c EmptyString
            | String a b => String c (String a b)
            end).
    now rewrite IH.
Qed.

Lemma trimStart_head (s : string) :
  match JS.trimStart s with
  | EmptyString => True
  | String c _ => JS.isStrWhiteSpaceChar c = false
  end.
Proof.
  induction s as [| c r IH]; simpl; [exact I |].
  destruct (JS.isStrWhiteSpaceChar c) eqn:Ec; [exact IH | exact Ec].
Qed.

Lemma trim_idempotent (s : string) : JS.trim (JS.trim s) = JS.trim s.
Proof.
  unfold JS.trim. pose proof (trimStart_head s) as Hh.
  destruct (JS.trimStart s) as [| c r]; [reflexivity |].
  assert (Hs : JS.trimStart (JS.trimEnd (String c r)) = JS.trimEnd (String c r)).
  { simpl. destruct (JS.trimEnd r); simpl; rewrite Hh; simpl; now rewrite ?Hh. }
  rewrite Hs. apply trimEnd_idempotent.
Qed.

Lemma BigInt_trim (s : string) : JS.BigInt (JS.trim s) = JS.BigInt s.
Proof. unfold JS.BigInt. now rewrite trim_idempotent. Qed.

Lemma prefix_empty (s : string) : String.prefix "" s = true.
Proof. now destruct s. Qed.

(** A sign in front of a decimal numeral. *)
Lemma BigInt_signed (s : string) :
  is_decimal_numeral s = true ->
  JS.BigInt ("-" ++ s) = Some (- decimal_value s)
  /\ JS.BigInt ("+" ++ s) = Some (decimal_value s).
Proof.
  intros H. pose proof H as H'. unfold is_decimal_numeral in H'.
  apply andb_prop in H' as [Ht Hd].
  assert (Htrim : forall c, JS.isStrWhiteSpaceChar c = false ->
            JS.trim (String c s) = String c s).
  { intros c Hc. unfold JS.trim. simpl JS.trimStart. rewrite Hc.
    simpl JS.trimEnd. rewrite (trimEnd_digits s Hd).
    destruct s; [discriminate | reflexivity]. }
  assert (Hval : JS.parseDigits 10 s = Some (decimal_value s)).
  { unfold JS.parseDigits. destruct s as [| c r]; [discriminate |].
    rewrite (digitsVal_positional _ 0 Hd), little_endian_zero. reflexivity. }
  split; unfold JS.BigInt; simpl append.
  - rewrite (Htrim "-"%char eq_refl). cbn. now rewrite Hval, prefix_empty.
  - rewrite (Htrim "+"%char eq_refl). cbn. now rewrite Hval, prefix_empty.
Qed.

(** A literal with a radix prefix is read in that radix. *)
Lemma BigInt_prefixed (p h : string) (radix v : Z) :
  In (p, radix) literal_prefixes ->
  JS.parseDigits radix h = Some v ->
  JS.BigInt (p ++ h) = Some v.
Proof.
  intros Hin Hv.
  destruct (parseDigits_no_space radix h v Hv) as [Hns Hne].
  assert (Htrim : forall a b, no_space a = true -> no_space b = true ->
            JS.trim (String a (String b h)) = String a (String b h)).
  { intros a b Ha Hb. apply trim_no_space. simpl. now rewrite Ha, Hb. }
  unfold literal_prefixes in Hin. simpl in Hin.
  destruct Hin as [E | [E | [E | [E | [E | [E | []]]]]]];
    injection E as <- <-; unfold JS.BigInt; simpl append;
    rewrite Htrim by reflexivity; cbn; rewrite ?prefix_empty; cbn; exact Hv.
Qed.

Lemma parseWeiString_bigint (value : option string) :
  parseWeiString value = bigint_or_zero value.
Proof.
  destruct value as [[| c r] |]; [reflexivity | | reflexivity].
  unfold parseWeiString, bigint_or_zero. simpl JS.truthy_opt. cbn [negb].
  now destruct (JS.BigInt (String c r)).
Qed.

(** C5 as stated fails: a cost basis written "0x10" is no decimal numeral,
    so that its decimal reading is zero, and [BigInt] reads it as 16. *)
Lemma hex_field_not_decimal :
  ~ (forall (o : OffchainStatus) (snap : LossSnapshot),
        effectiveCostBasis (Some o) snap = decimal_or_zero (costBasis o)).
Proof.
  intros H. specialize (H hex_offchain sample_snapshot).
  assert (E1 : effectiveCostBasis (Some hex_offchain) sample_snapshot = 16)
    by reflexivity.
  assert (E2 : decimal_or_zero (costBasis hex_offchain) = 0) by reflexivity.
  rewrite E1, E2 in H. discriminate.
Qed.

(** C5, amended: with an off-chain snapshot every effective field is the
    off-chain field read as a [BigInt] literal, whatever the on-chain values
    are, and zero when the field is absent or is not such a literal.  Such a
    literal is a decimal numeral, read as its positional value and negated
    behind a minus sign, or digits behind one of the prefixes 0x, 0o, 0b,
    read in radix 16, 8, 2; white space around it is ignored and the empty
    string reads as zero.  Without a snapshot every effective field is the
    on-chain value, the loss being zero when the cached loss is not valid. *)
Theorem effective_position_reads_bigint
    (off : option OffchainStatus) (snap : LossSnapshot) (cl : CachedLoss)
    (hv : Z) :
  match off with
  | Some o =>
      forall (snap' : LossSnapshot) (cl' : CachedLoss) (hv' : Z),
        effectiveCostBasis off snap' = bigint_or_zero (costBasis o)
        /\ effectiveSoldValue off snap' = bigint_or_zero (soldValue o)
        /\ effectiveHoldingValue off hv' = bigint_or_zero (currentHoldingValue o)
        /\ effectiveLossAmount off cl' = bigint_or_zero (lossAmount o)
  | None =>
      effectiveCostBasis off snap = snap_costBasis snap
      /\ effectiveSoldValue off snap = snap_soldValue snap
      /\ effectiveHoldingValue off hv = hv
      /\ (valid cl = true -> effectiveLossAmount off cl = loss cl)
      /\ (valid cl = false -> effectiveLossAmount off cl = 0)
  end
  /\ (forall s : string,
        is_decimal_numeral s = true ->
        bigint_or_zero (Some s) = decimal_value s
        /\ bigint_or_zero (Some ("-" ++ s)) = - decimal_value s
        /\ bigint_or_zero (Some ("+" ++ s)) = decimal_value s)
  /\ (forall (p h : string) (radix v : Z),
        In (p, radix) literal_prefixes ->
        JS.parseDigits radix h = Some v ->
        bigint_or_zero (Some (p ++ h)) = v)
  /\ (forall s : string,
        bigint_or_zero (Some (JS.trim s)) = bigint_or_zero (Some s))
  /\ bigint_or_zero (Some "") = 0
  /\ (forall s : string, JS.BigInt s = None -> bigint_or_zero (Some s) = 0).
Proof.
  split; [| split; [| split; [| split; [| split]]]].
  - destruct off as [o |].
    + intros snap' cl' hv'.
      unfold effectiveCostBasis, effectiveSoldValue, effectiveHoldingValue,
        effectiveLossAmount, offchainCostBasis, offchainSoldValue,
        offchainHoldingValue, offchainLossAmount.
      rewrite !parseWeiString_bigint. repeat split.
    + repeat split; simpl; intros ->; reflexivity.
  - intros s H. destruct (BigInt_signed s H) as [Hm Hp].
    unfold bigint_or_zero. rewrite (BigInt_numeral s H), Hm, Hp. repeat split.
  - intros p h radix v Hin Hv. unfold bigint_or_zero.
    now rewrite (BigInt_prefixed p h radix v Hin Hv).
  - intros s. unfold bigint_or_zero. now rewrite BigInt_trim.
  - reflexivity.
  - intros s E. unfold bigint_or_zero. now rewrite E.
Qed.

Lemma effective_position_reads_bigint_witness :
  (valid sample_invalid_loss = false /\ 0 < loss sample_invalid_loss
   /\ is_decimal_numeral "2500" = true
   /\ In ("0x", 16) literal_prefixes
   /\ JS.parseDigits 16 "10" = Some 16)
  /\ effectiveLossAmount None sample_invalid_loss = 0
  /\ effectiveCostBasis None sample_snapshot = 7
  /\ effectiveCostBasis (Some sample_offchain) sample_snapshot = 2500
  /\ effectiveSoldValue (Some sample_offchain) sample_snapshot = 0
  /\ effectiveHoldingValue (Some sample_offchain) 11 = 0
  /\ effectiveLossAmount (Some sample_offchain) sample_invalid_loss = 40
  /\ effectiveCostBasis (Some hex_offchain) sample_snapshot = 16
  /\ bigint_or_zero (Some "-2500") = -2500.
Proof.
  split; [repeat split; try reflexivity; left; reflexivity |].
  pose proof (effective_position_reads_bigint None sample_snapshot
                sample_invalid_loss 11) as (HN & Hdec & Hpre & _).
  pose proof (effective_position_reads_bigint (Some sample_offchain)
                sample_snapshot sample_invalid_loss 11) as [HS _].
  pose proof (effective_position_reads_bigint (Some hex_offchain)
                sample_snapshot sample_invalid_loss 11) as [HX _].
  cbv beta iota in HN, HS, HX.
  destruct HN as (Hc & _ & _ & _ & Hl).
  destruct (HS sample_snapshot sample_invalid_loss 11) as (Sc & Ss & Sh & Sl).
  destruct (HX sample_snapshot sample_invalid_loss 11) as (Xc & _).
  destruct (Hdec "2500" eq_refl) as (D0 & Dm & _).
  split; [exact (Hl eq_refl) |].
  split; [exact Hc |].
  split; [rewrite Sc; exact D0 |].
  split; [exact Ss |].
  split; [exact Sh |].
  split; [exact Sl |].
  split; [rewrite Xc; exact (Hpre "0x" "10" 16 16 (or_introl eq_refl) eq_refl) |].
  exact Dm.
Defined.

(** Nothing the component does stores an off-chain snapshot. *)
Lemma offchainStatus_null (p : Position) :
  reachable p -> offchainStatus p = None.
Proof.
  induction 1 as [| p q _ IH Hstep]; [reflexivity |].
  destruct Hstep; simpl; [reflexivity | assumption | assumption | assumption].
Qed.

(** C10: [fetchOffchainStatus] clears the snapshot whatever the state, so
    the snapshot is null in every reachable state and each effective field
    is the value derived from the chain. *)
Theorem offchain_branch_never_taken (p : Position) :
  reachable p ->
  (forall q : Position, offchainStatus (fetchOffchainStatus q) = None)
  /\ offchainStatus p = None
  /\ eff_costBasis p = snap_costBasis (lossSnapshot p)
  /\ eff_soldValue p = snap_soldValue (lossSnapshot p)
  /\ eff_holdingValue p = holdingValue p
  /\ eff_lossAmount p
     = (if valid (cachedLoss p) then loss (cachedLoss p) else 0).
Proof.
  intros H. pose proof (offchainStatus_null p H) as E.
  unfold eff_costBasis, eff_soldValue, eff_holdingValue, eff_lossAmount.
  rewrite E. repeat split.
Qed.


Lemma sample_position_reachable : reachable sample_position.
Proof.
  unfold sample_position.
  eapply reach_step; [| apply step_holding].
  eapply reach_step; [| apply step_cached].
  eapply reach_step; [| apply step_snapshot].
  eapply reach_step; [apply reach_initial | apply step_fetch].
Defined.

Lemma offchain_branch_never_taken_witness :
  offchainStatus sample_position = None
  /\ eff_costBasis sample_position = 7
  /\ eff_soldValue sample_position = 8
  /\ eff_holdingValue sample_position = 300
  /\ eff_lossAmount sample_position = 12.
Proof.
  exact (proj2 (offchain_branch_never_taken sample_position
                  sample_position_reachable)).
Defined.

End ReconcilerFacts.

(** ** The transaction handlers *)

Module OrchestratorFacts.

Import Orchestrator.
Local Open Scope string_scope.
Local Open Scope list_scope.
Local Open Scope Z_scope.

Ltac run_monad :=
  unfold bind, try_catch, try_finally, detach, call, emit, throw, ret,
    setIsPending, setLastAction, setBurnAmount, setNftSubTwoLevel,
    setNftSubTeam, update, out_of_fuel;
  cbn [fst snd ui log clock isPending lastAction burnAmount
       setIsPending' setLastAction' setBurnAmount' setNftSubTwoLevel'
       setNftSubTeam'].

(** Case analysis on the replies of the outside world a run consults. *)
Ltac ask_world :=
  repeat match goal with
         | |- context [match ?w ?n with Returns _ => _ | Rejects _ => _ end] =>
             destruct (w n) eqn:?; simpl
         end.


Lemma burn_failed_keeps_state (msg : string) (w : World) (r : Run) :
  fst (burn_failed msg w r) = Val tt /\ ui (snd (burn_failed msg w r)) = ui r.
Proof.
  unfold burn_failed.
  destruct (JS.includes "BELOW_MIN_BURN_VALUE" msg);
    [| destruct (JS.includes "PancakeLibrary: INSUFFICIENT_INPUT_AMOUNT" msg);
       [| destruct (JS.includes "exceeds allowance" msg)]];
    run_monad; split; reflexivity.
Qed.

(** The five claim handlers leave the machine idle on every path. *)
Lemma handleClaim_idle (c : Closure) (k : ClaimKind) (w : World) (r : Run) :
  signer c = true ->
  fst (handleClaim c k w r) = Val tt /\ idle (ui (snd (handleClaim c k w r))).
Proof.
  intros Hs. unfold handleClaim. rewrite Hs. run_monad. simpl.
  ask_world; split; try reflexivity; split; reflexivity.
Qed.

Lemma handleClaim_no_signer (c : Closure) (k : ClaimKind) (w : World) (r : Run) :
  signer c = false -> handleClaim c k w r = (Val tt, r).
Proof.
  intros Hs. unfold handleClaim. now rewrite Hs.
Qed.

(** The submission part of [handleBurn]: whatever the outside world
    replies, it ends with the machine idle. *)
Lemma burn_submit_idle (c : Closure) (w : World) (r : Run) :
  fst (burn_submit c w r) = Val tt /\ idle (ui (snd (burn_submit c w r))).
Proof.
  unfold burn_submit. run_monad. simpl.
  ask_world;
    try (split; [reflexivity | split; reflexivity]);
    match goal with
    | |- context [burn_failed ?msg ?w ?r] =>
        destruct (burn_failed_keeps_state msg w r) as [Hv Hu];
        destruct (burn_failed msg w r) as [out r'];
        simpl in Hv, Hu; subst out; simpl;
        split; [reflexivity | split; reflexivity]
    end.
Qed.

(** The allowance block either started the approval handler, whose run
    is then the whole run, or left the component state as it was. *)
Lemma burn_check_allowance_cases (c : Closure) (approve : M unit)
    (w : World) (r : Run) :
  let out := burn_check_allowance c approve w r in
  (fst out = Val false /\ ui (snd out) = ui r)
  \/ (exists r1, ui r1 = ui r
        /\ fst (approve w r1) <> Fuel
        /\ out = (Val true, snd (approve w r1)))
  \/ (exists r1, ui r1 = ui r
        /\ fst (approve w r1) = Fuel /\ fst out = Fuel).
Proof.
  cbv zeta. unfold burn_check_allowance.
  destruct (JS.truthy_opt (tokenAddress c)); [| left; split; reflexivity].
  run_monad.
  destruct (w (clock r)) as [v | msg]; [| left; split; reflexivity].
  destruct (v <? parsedBurnAmount c); [| left; split; reflexivity].
  right.
  set (r1 := {| ui := ui r; log := log r ++ [ReadAllowance]; clock := S (clock r) |}).
  destruct (approve w r1) as [[a | e |] r'] eqn:E.
  - left. exists r1. rewrite E. repeat split. discriminate.
  - left. exists r1. rewrite E. repeat split. discriminate.
  - right. exists r1. rewrite E. repeat split.
Qed.

Lemma handleBurn_with_settles (c : Closure) (approve : M unit) :
  signer c = true -> settles approve -> settles (handleBurn_with c approve).
Proof.
  intros Hs Hap w r. unfold handleBurn_with. rewrite Hs. cbn [negb].
  unfold bind.
  destruct (burn_check_allowance_cases c approve w r)
    as [[Hv Hu] | [(r1 & Hu & Hf & E) | (r1 & Hu & Hf & E)]].
  - destruct (burn_check_allowance c approve w r) as [out r'].
    simpl in Hv. subst out. right. apply burn_submit_idle.
  - rewrite E. unfold ret. simpl.
    destruct (Hap w r1) as [F | I]; [contradiction | now right].
  - destruct (burn_check_allowance c approve w r) as [out r'].
    simpl in E. subst out. now left.
Qed.

(** Approve-then-burn: once past its guard the approval handler either
    is still running at the recursion bound or has left the machine idle. *)
Lemma handleApprove_settles (c : Closure) (fuel : nat) :
  signer c = true -> JS.truthy_opt (tokenAddress c) = true ->
  settles (handleApprove c fuel).
Proof.
  intros Hs Ht. induction fuel as [| n IH]; intros w r.
  - left. reflexivity.
  - cbn [handleApprove]. rewrite Hs, Ht. cbn [negb orb].
    pose proof (handleBurn_with_settles c (handleApprove c n) Hs IH) as Hb.
    run_monad. simpl.
    destruct (w (clock r)); simpl; [| right; split; reflexivity].
    destruct (w (S (clock r))); simpl; [| right; split; reflexivity].
    destruct (w (S (S (clock r)))); simpl; [| right; split; reflexivity].
    match goal with
    | |- context [handleBurn_with c (handleApprove c n) ?w ?r] =>
        specialize (Hb w r);
        destruct (handleBurn_with c (handleApprove c n) w r) as [[a | e |] r']
    end; simpl in Hb |- *.
    + destruct Hb as [Hf | Hi]; [discriminate | now right].
    + right. split; reflexivity.
    + now left.
Qed.

Lemma handleBurn_settles (c : Closure) (fuel : nat) :
  signer c = true -> settles (handleBurn c fuel).
Proof.
  intros Hs w r. unfold handleBurn.
  destruct (JS.truthy_opt (tokenAddress c)) eqn:Ht.
  - apply handleBurn_with_settles; [assumption |].
    now apply handleApprove_settles.
  - unfold handleBurn_with, burn_check_allowance. rewrite Hs, Ht.
    cbn [negb]. unfold bind at 1, ret at 1. right.
    apply (burn_submit_idle c w r).
Qed.

(** *** Logs only grow *)


Lemma extends_ret {A : Type} (a : A) : extends (ret a).
Proof. intros w r. exists []. simpl. now rewrite app_nil_r. Qed.

Lemma extends_throw {A : Type} (msg : string) : extends (@throw A msg).
Proof. intros w r. exists []. simpl. now rewrite app_nil_r. Qed.

Lemma extends_out_of_fuel {A : Type} : extends (@out_of_fuel A).
Proof. intros w r. exists []. simpl. now rewrite app_nil_r. Qed.

Lemma extends_update (f : TxState -> TxState) : extends (update f).
Proof. intros w r. exists []. simpl. now rewrite app_nil_r. Qed.

Lemma extends_emit (e : Event) : extends (emit e).
Proof. intros w r. exists [e]. reflexivity. Qed.

Lemma extends_call (e : Event) : extends (call e).
Proof. intros w r. exists [e]. unfold call. now destruct (w (clock r)). Qed.

Lemma extends_bind {A B : Type} (m : M A) (k : A -> M B) :
  extends m -> (forall a, extends (k a)) -> extends (bind m k).
Proof.
  intros Hm Hk w r. unfold bind.
  destruct (Hm w r) as [l1 E1].
  destruct (m w r) as [[a | e |] r1]; simpl in E1.
  - destruct (Hk a w r1) as [l2 E2]. exists (l1 ++ l2).
    now rewrite E2, E1, app_assoc.
  - now exists l1.
  - now exists l1.
Qed.

Lemma extends_try_catch {A : Type} (m : M A) (h : string -> M A) :
  extends m -> (forall msg, extends (h msg)) -> extends (try_catch m h).
Proof.
  intros Hm Hh w r. unfold try_catch.
  destruct (Hm w r) as [l1 E1].
  destruct (m w r) as [[a | e |] r1]; simpl in E1.
  - now exists l1.
  - destruct (Hh e w r1) as [l2 E2]. exists (l1 ++ l2).
    now rewrite E2, E1, app_assoc.
  - now exists l1.
Qed.

Lemma extends_try_finally {A : Type} (m : M A) (f : M unit) :
  extends m -> extends f -> extends (try_finally m f).
Proof.
  intros Hm Hf w r. unfold try_finally.
  destruct (Hm w r) as [l1 E1].
  destruct (m w r) as [[a | e |] r1]; simpl in E1;
    try (now exists l1);
    destruct (Hf w r1) as [l2 E2];
    destruct (f w r1) as [[[] | e' |] r2]; simpl in E2 |- *;
    exists (l1 ++ l2); now rewrite E2, E1, app_assoc.
Qed.

Lemma extends_detach (m : M unit) : extends m -> extends (detach m).
Proof.
  intros Hm w r. unfold detach. destruct (Hm w r) as [l1 E1].
  destruct (m w r) as [[a | e |] r1]; now exists l1.
Qed.

Lemma extends_if {A : Type} (b : bool) (m1 m2 : M A) :
  extends m1 -> extends m2 -> extends (if b then m1 else m2).
Proof. now destruct b. Qed.

Create HintDb grows.
#[local] Hint Resolve extends_ret extends_throw extends_out_of_fuel
  extends_update extends_emit extends_call extends_bind extends_try_catch
  extends_try_finally extends_detach extends_if : grows.

Lemma extends_setters :
  (forall b, extends (setIsPending b))
  /\ (forall a, extends (setLastAction a))
  /\ (forall x, extends (setBurnAmount x))
  /\ (forall x, extends (setNftSubTwoLevel x))
  /\ (forall x, extends (setNftSubTeam x)).
Proof. repeat split; intros; apply extends_update. Qed.

Ltac grows :=
  repeat (first [ apply extends_if
                | apply extends_bind; [| intros ?]
                | apply extends_try_catch; [| intros ?]
                | apply extends_try_finally
                | apply extends_detach
                | apply extends_setters
                | solve [auto with grows] ]).

Lemma extends_burn_failed (msg : string) : extends (burn_failed msg).
Proof. unfold burn_failed. auto 10 with grows. Qed.

Lemma extends_handleBurn_with (c : Closure) (approve : M unit) :
  extends approve -> extends (handleBurn_with c approve).
Proof.
  intros Ha. pose proof extends_burn_failed.
  unfold handleBurn_with, burn_check_allowance, burn_submit.
  grows.
Qed.

Lemma extends_handleApprove (c : Closure) (fuel : nat) :
  extends (handleApprove c fuel).
Proof.
  induction fuel as [| n IH]; cbn [handleApprove]; [auto with grows |].
  pose proof (extends_handleBurn_with c _ IH).
  grows.
Qed.

(** *** The burn flow *)

(** Once a balance has been stored a token address is known. *)
Lemma token_known_with_balance (v : TokenView) :
  token_reachable v ->
  view_tokenBalance v <> 0 -> JS.truthy_opt (view_tokenAddress v) = true.
Proof.
  induction 1 as [| v v' _ IH Hstep]; simpl; [congruence |].
  destruct Hstep as [v tAddr Htruthy | v balance Hknown]; simpl; auto.
Qed.

(** The burn button is only enabled when the token address is known, so
    that a click on it enters the handlers with a token to ask. *)
Lemma enabled_button_knows_token (pending connected : bool) (parsed : Z)
    (v : TokenView) :
  token_reachable v ->
  burn_button_enabled pending connected parsed v = true ->
  JS.truthy_opt (view_tokenAddress v) = true.
Proof.
  intros Hr He. apply token_known_with_balance; [assumption |].
  unfold burn_button_enabled in He. apply negb_true_iff in He.
  apply orb_false_iff in He as [_ He]. now apply Z.eqb_neq.
Qed.

Lemma burn_failed_log (msg : string) (w : World) (r : Run) :
  exists a,
    burn_failed msg w r
    = (Val tt, {| ui := ui r; log := log r ++ [ShowAlert a]; clock := clock r |}).
Proof.
  unfold burn_failed.
  destruct (JS.includes "BELOW_MIN_BURN_VALUE" msg);
    [| destruct (JS.includes "PancakeLibrary: INSUFFICIENT_INPUT_AMOUNT" msg);
       [| destruct (JS.includes "exceeds allowance" msg)]];
    eexists; reflexivity.
Qed.

(** The submission sends the burn first and never an approval. *)
Lemma burn_submit_log (c : Closure) (w : World) (r : Run) :
  exists rest,
    log (snd (burn_submit c w r))
    = log r ++ SendBurn (parsedBurnAmount c) (inviterAddr c) :: rest
    /\ ~ In SendApprove rest.
Proof.
  unfold burn_submit. run_monad. simpl.
  ask_world;
    try match goal with
      | |- context [burn_failed ?msg ?w ?r] =>
          destruct (burn_failed_log msg w r) as [a ->]; simpl
      end;
    rewrite <- ?app_assoc; simpl;
    eexists; (split; [reflexivity |]); simpl; intuition discriminate.
Qed.

Lemma update_then {A : Type} (f : TxState -> TxState) (m : M A)
    (w : World) (r : Run) :
  bind (update f) (fun _ => m) w r
  = m w {| ui := f (ui r); log := log r; clock := clock r |}.
Proof. reflexivity. Qed.

(** A guarded block that starts by awaiting an operation logs that
    operation first, whatever happens next. *)
Lemma try_catch_call_first {A : Type} (e : Event) (k : Z -> M A)
    (h : string -> M A) (w : World) (r : Run) :
  (forall v, extends (k v)) -> (forall msg, extends (h msg)) ->
  exists rest,
    log (snd (try_catch (bind (call e) k) h w r)) = log r ++ e :: rest.
Proof.
  intros Hk Hh. unfold try_catch, bind, call.
  set (r1 := {| ui := ui r; log := log r ++ [e]; clock := S (clock r) |}).
  assert (Hfrom : forall (B : Type) (m : M B), extends m ->
            exists rest, log (snd (m w r1)) = log r ++ e :: rest).
  { intros B m Hm. destruct (Hm w r1) as [l E]. exists l. rewrite E.
    unfold r1. simpl. now rewrite <- app_assoc. }
  destruct (w (clock r)) as [v | msg].
  - destruct (Hk v w r1) as [l E].
    destruct (k v w r1) as [[a | msg |] r'] eqn:Ek; simpl in E.
    + exists l. simpl. rewrite E. unfold r1. simpl. now rewrite <- app_assoc.
    + destruct (Hh msg w r') as [l' E']. exists (l ++ l').
      rewrite E', E. unfold r1. simpl. now rewrite <- !app_assoc.
    + exists l. simpl. rewrite E. unfold r1. simpl. now rewrite <- app_assoc.
  - apply Hfrom. apply Hh.
Qed.

(** Past its guard the approval handler submits the approval first. *)
Lemma handleApprove_first (c : Closure) (fuel : nat) (w : World) (r : Run) :
  signer c = true -> JS.truthy_opt (tokenAddress c) = true ->
  exists rest, log (snd (handleApprove c (S fuel) w r)) = log r ++ SendApprove :: rest.
Proof.
  intros Hs Ht. cbn [handleApprove]. rewrite Hs, Ht. cbn [negb orb].
  unfold setIsPending at 1, setLastAction at 1. rewrite !update_then.
  match goal with
  | |- context [try_catch _ _ w ?r0] =>
      change (log r) with (log r0)
  end.
  apply try_catch_call_first.
  - intros _. apply extends_bind; [apply extends_call | intros _].
    apply extends_bind; [apply extends_call | intros _].
    apply extends_handleBurn_with, extends_handleApprove.
  - intros _. apply extends_bind; [apply extends_setters | intros _].
    apply extends_setters.
Qed.

(** With a fresh allowance below the amount, what [handleBurn] does after
    the read is what the approval handler does. *)
Lemma handleBurn_with_redirect (c : Closure) (approve : M unit)
    (w : World) (r : Run) (fresh : Z) :
  signer c = true -> JS.truthy_opt (tokenAddress c) = true ->
  w (clock r) = Returns fresh -> fresh < parsedBurnAmount c ->
  snd (handleBurn_with c approve w r)
  = snd (approve w {| ui := ui r; log := log r ++ [ReadAllowance];
                      clock := S (clock r) |}).
Proof.
  intros Hs Ht Hw Hlt. unfold handleBurn_with, burn_check_allowance.
  rewrite Hs, Ht. cbn [negb]. run_monad. rewrite Hw.
  destruct (Z.ltb_spec fresh (parsedBurnAmount c)) as [_ | Hge]; [| lia].
  destruct (approve w _) as [[a | e |] r']; reflexivity.
Qed.




(** The click on the burn button chooses between the two handlers by the
    cached allowance: in the state of [sample_closure] it starts with the
    approval although the chain would report an allowance of 5e18. *)
Example onBurnClick_uses_cached_allowance :
  log (snd (onBurnClick sample_closure 2 "2" generous_world (start idle0)))
  = [SendApprove; WaitTx; Refresh; ReadAllowance;
     SendBurn 2000000000000000000 Ethers.ZeroAddress; WaitTx; Refresh].
Proof. reflexivity. Qed.

(** *** The subscription flow *)

(** Past its guards the subscription handler clears the pending flag on
    every path and leaves the action tag in place. *)
Lemma handleSubscribe_past_guards (cs : Ethers.Checksums) (c : Closure)
    (w : World) (r : Run) :
  isConnected c = true -> on_bsc c = true -> signer c = true ->
  JS.truthy_opt (address c) = true ->
  (forall balance, w (clock r) = Returns balance -> nftSubPrice c <= balance) ->
  fst (handleSubscribe cs c w r) = Val tt
  /\ isPending (ui (snd (handleSubscribe cs c w r))) = false
  /\ lastAction (ui (snd (handleSubscribe cs c w r))) = Some "subscribe".
Proof.
  intros Hc Hn Hs Ha Hb. unfold handleSubscribe.
  rewrite Hc, Hn, Hs, Ha. cbn [negb]. run_monad.
  destruct (w (clock r)) as [balance | msg] eqn:Hw.
  - specialize (Hb balance eq_refl).
    destruct (Z.ltb_spec balance (nftSubPrice c)) as [Hlt | _]; [lia |].
    destruct (nftSubscriptionConfigured c); simpl;
      [| repeat split; reflexivity].
    ask_world; repeat split; reflexivity.
  - destruct (nftSubscriptionConfigured c); simpl;
      [| repeat split; reflexivity].
    ask_world; repeat split; reflexivity.
Qed.

(** C7: every operation is meant to end with the pending flag cleared and
    the active action reset.  The claim handlers and the burn handlers do
    both; the subscription handler, past its guards and whatever the outside
    world replies, clears the pending flag and leaves the action set. *)
Theorem handleSubscribe_leaves_action (cs : Ethers.Checksums) (c : Closure)
    (w : World) (r : Run) :
  isConnected c = true -> on_bsc c = true -> signer c = true ->
  JS.truthy_opt (address c) = true ->
  (forall balance, w (clock r) = Returns balance -> nftSubPrice c <= balance) ->
  idle (ui r) ->
  (forall k, idle (ui (snd (handleClaim c k w r))))
  /\ (forall fuel,
        fst (handleBurn c fuel w r) = Fuel
        \/ idle (ui (snd (handleBurn c fuel w r))))
  /\ isPending (ui (snd (handleSubscribe cs c w r))) = false
  /\ lastAction (ui (snd (handleSubscribe cs c w r))) = Some "subscribe"
  /\ ~ idle (ui (snd (handleSubscribe cs c w r))).
Proof.
  intros Hc Hn Hs Ha Hb Hi.
  destruct (handleSubscribe_past_guards cs c w r Hc Hn Hs Ha Hb)
    as (_ & Hp & Hl).
  split; [intros k; apply (handleClaim_idle c k w r Hs) |].
  split; [intros fuel; apply (handleBurn_settles c fuel Hs) |].
  split; [exact Hp |]. split; [exact Hl |].
  intros [_ Hnone]. rewrite Hl in Hnone. discriminate.
Qed.

Lemma handleSubscribe_leaves_action_witness :
  idle idle0
  /\ isPending
       (ui (snd (handleSubscribe sample_checksums sample_closure
                   generous_world (start idle0)))) = false
  /\ lastAction
       (ui (snd (handleSubscribe sample_checksums sample_closure
                   generous_world (start idle0)))) = Some "subscribe".
Proof.
  split; [split; reflexivity |].
  assert (Hb : forall balance,
             generous_world (clock (start idle0)) = Returns balance ->
             nftSubPrice sample_closure <= balance).
  { intros balance E. injection E as <-. simpl. lia. }
  destruct (handleSubscribe_leaves_action sample_checksums sample_closure
              generous_world (start idle0) eq_refl eq_refl eq_refl eq_refl
              Hb (conj eq_refl eq_refl)) as (_ & _ & Hp & Hl & _).
  split; [exact Hp | exact Hl].
Defined.

(** While the allowance read after each confirmed approval stays below the
    amount, approve-then-burn starts over and does not come to an end. *)
Lemma handleApprove_can_cycle (c : Closure) (fuel : nat) (r : Run) :
  signer c = true -> JS.truthy_opt (tokenAddress c) = true ->
  0 < parsedBurnAmount c ->
  fst (handleApprove c fuel barren_world r) = Fuel.
Proof.
  intros Hs Ht Hpos. revert r.
  induction fuel as [| n IH]; intros r; [reflexivity |].
  cbn [handleApprove]. rewrite Hs, Ht. cbn [negb orb].
  unfold handleBurn_with, burn_check_allowance. rewrite Hs, Ht. cbn [negb].
  run_monad. unfold barren_world at 1 2 3 4.
  destruct (Z.ltb_spec 0 (parsedBurnAmount c)) as [_ | Hge]; [| lia].
  match goal with
  | |- context [handleApprove c n barren_world ?r0] =>
      specialize (IH r0); destruct (handleApprove c n barren_world r0) as [out r']
  end.
  simpl in IH. subst out. reflexivity.
Qed.

End OrchestratorFacts.

(** ** More on the pricing functions *)

Module AMMBounds.

Import AMM AMMFacts.

(** The quote never reaches the output reserve: a burn cannot be valued
    at the whole pool, whatever the amount. *)
Theorem calculateBurnValue_below_reserve (tokenReserve bnbReserve amountIn : Z) :
  0 < bnbReserve ->
  0 <= calculateBurnValue tokenReserve bnbReserve amountIn < bnbReserve.
Proof.
  intros Ho. split; [apply calculateBurnValue_nonneg |].
  destruct (Z_lt_le_dec 0 amountIn) as [Ha | Ha];
    [destruct (Z_lt_le_dec 0 tokenReserve) as [Hi | Hi] |];
    try (rewrite calculateBurnValue_guard; lia).
  rewrite calculateBurnValue_pos by assumption. unfold amountOut_floor.
  apply Z.div_lt_upper_bound; nia.
Qed.

Lemma calculateBurnValue_below_reserve_witness :
  0 < 10 /\ 0 <= calculateBurnValue 1000 10 1000000000 < 10.
Proof.
  split; [lia |]. apply (calculateBurnValue_below_reserve 1000 10 1000000000). lia.
Defined.

(** The quote is at most 99.7% of the amount valued at the spot price
    bnbReserve / tokenReserve: the fee and the price impact only ever lower
    it. *)
Theorem calculateBurnValue_below_spot (tokenReserve bnbReserve amountIn : Z) :
  0 < tokenReserve -> 0 < bnbReserve -> 0 <= amountIn ->
  calculateBurnValue tokenReserve bnbReserve amountIn * (tokenReserve * 1000)
  <= amountIn * 997 * bnbReserve.
Proof.
  intros Hi Ho Ha.
  destruct (Z.eq_dec amountIn 0) as [-> | Hne].
  - rewrite calculateBurnValue_guard by lia. lia.
  - rewrite calculateBurnValue_pos by lia. unfold amountOut_floor.
    assert (Hd : 0 < tokenReserve * 1000 + amountIn * 997) by nia.
    pose proof (Z.mul_div_le (amountIn * 997 * bnbReserve) _ Hd) as Hq.
    assert (Hq0 : 0 <= amountIn * 997 * bnbReserve
                       / (tokenReserve * 1000 + amountIn * 997))
      by (apply Z.div_pos; nia).
    revert Hq Hq0.
    generalize (amountIn * 997 * bnbReserve
                / (tokenReserve * 1000 + amountIn * 997)) as q.
    intros q Hq Hq0. nia.
Qed.

Lemma calculateBurnValue_below_spot_witness :
  (0 < 1000 /\ 0 < 1000000 /\ 0 <= 52)
  /\ calculateBurnValue 1000 1000000 52 * (1000 * 1000) <= 52 * 997 * 1000000.
Proof.
  split; [lia |]. apply (calculateBurnValue_below_spot 1000 1000000 52); lia.
Defined.

(** The inverse never asks for more than 101% of an amount that is
    enough: every input whose quote reaches minValue is at least the
    quotient before the margin. *)
Theorem calculateMinTokenAmount_not_excessive
    (tokenReserve bnbReserve minValue x : Z) :
  0 < tokenReserve -> 0 < bnbReserve ->
  0 < minValue -> minValue < bnbReserve ->
  minValue <= calculateBurnValue tokenReserve bnbReserve x ->
  calculateMinTokenAmount tokenReserve bnbReserve minValue <= x * 101 / 100.
Proof.
  intros Hi Ho Hv Hlt Hx.
  assert (Hxpos : 0 < x).
  { destruct (Z_lt_le_dec 0 x) as [H | H]; [assumption |].
    rewrite calculateBurnValue_guard in Hx; lia. }
  rewrite calculateBurnValue_pos in Hx by assumption. unfold amountOut_floor in Hx.
  rewrite calculateMinTokenAmount_pos by assumption.
  assert (Hd : 0 < tokenReserve * 1000 + x * 997) by nia.
  pose proof (Z.mul_div_le (x * 997 * bnbReserve) _ Hd) as Hq.
  revert Hx Hq.
  generalize (x * 997 * bnbReserve / (tokenReserve * 1000 + x * 997)) as q.
  intros q Hx Hq.
  assert (Hn : tokenReserve * minValue * 1000 <= x * ((bnbReserve - minValue) * 997))
    by nia.
  apply Z.div_le_mono; [lia |].
  apply Z.mul_le_mono_nonneg_r; [lia |].
  apply Z.div_le_upper_bound; lia.
Qed.

Lemma calculateMinTokenAmount_not_excessive_witness :
  (0 < 1000000 /\ 0 < 10000000 /\ 0 < 100000 /\ 100000 < 10000000
   /\ 100000 <= calculateBurnValue 1000000 10000000 10300)
  /\ calculateMinTokenAmount 1000000 10000000 100000 <= 10300 * 101 / 100.
Proof.
  assert (H : 100000 <= calculateBurnValue 1000000 10000000 10300)
    by (vm_compute; discriminate).
  split; [repeat split; try lia; exact H |].
  apply (calculateMinTokenAmount_not_excessive 1000000 10000000 100000 10300);
    try lia; exact H.
Defined.

(** A higher threshold never lowers the amount the inverse asks for. *)
Theorem calculateMinTokenAmount_monotone (tokenReserve bnbReserve v1 v2 : Z) :
  0 < tokenReserve -> 0 < v1 -> v1 <= v2 -> v2 < bnbReserve ->
  calculateMinTokenAmount tokenReserve bnbReserve v1
  <= calculateMinTokenAmount tokenReserve bnbReserve v2.
Proof.
  intros Hi H1 H12 H2.
  rewrite !calculateMinTokenAmount_pos by lia.
  apply Z.div_le_mono; [lia |].
  apply Z.mul_le_mono_nonneg_r; [lia |].
  apply div_cross_le; [nia | lia | lia |].
  assert (Ha : tokenReserve * v1 <= tokenReserve * v2)
    by (apply Z.mul_le_mono_nonneg_l; lia).
  assert (Hb : 0 <= tokenReserve * v1) by nia.
  assert (Hc : bnbReserve - v2 <= bnbReserve - v1) by lia.
  assert (Hd : tokenReserve * v1 * (bnbReserve - v2)
               <= tokenReserve * v2 * (bnbReserve - v1)).
  { transitivity (tokenReserve * v1 * (bnbReserve - v1)).
    - apply Z.mul_le_mono_nonneg_l; assumption.
    - apply Z.mul_le_mono_nonneg_r; [lia | assumption]. }
  nia.
Qed.

Lemma calculateMinTokenAmount_monotone_witness :
  (0 < 1000 /\ 0 < 50000 /\ 50000 <= 60000 /\ 60000 < 1000000)
  /\ calculateMinTokenAmount 1000 1000000 50000
     <= calculateMinTokenAmount 1000 1000000 60000.
Proof.
  split; [lia |]. apply (calculateMinTokenAmount_monotone 1000 1000000); lia.
Defined.

(** Where the inverse is enough: for positive reserves and
    0 < minValue < bnbReserve, the quote of the amount the inverse returns
    reaches minValue whenever the quotient before the margin is at least
    100, so that the margin of one percent adds at least one unit. *)
Theorem inverse_margin_suffices (tokenReserve bnbReserve minValue : Z) :
  0 < tokenReserve -> 0 < bnbReserve ->
  0 < minValue -> minValue < bnbReserve ->
  100 * ((bnbReserve - minValue) * 997) <= tokenReserve * minValue * 1000 ->
  minValue <=
  calculateBurnValue tokenReserve bnbReserve
    (calculateMinTokenAmount tokenReserve bnbReserve minValue).
Proof.
  intros Hi Ho Hv Hlt Hq.
  apply roundtrip_conservative; try assumption. now left.
Qed.

Lemma inverse_margin_suffices_witness :
  (0 < 1000000000000000000000000 /\ 0 < 10000000000000000000
   /\ 0 < 50000000000000000 /\ 50000000000000000 < 10000000000000000000
   /\ 100 * ((10000000000000000000 - 50000000000000000) * 997)
      <= 1000000000000000000000000 * 50000000000000000 * 1000)
  /\ 50000000000000000 <=
     calculateBurnValue 1000000000000000000000000 10000000000000000000
       (calculateMinTokenAmount 1000000000000000000000000 10000000000000000000
          50000000000000000).
Proof.
  split; [lia |].
  apply (inverse_margin_suffices 1000000000000000000000000 10000000000000000000
           50000000000000000); lia.
Defined.

End AMMBounds.

(** ** More on the transaction handlers *)

Module HandlerFacts.

Import Orchestrator OrchestratorFacts Scenario.
Local Open Scope string_scope.
Local Open Scope list_scope.
Local Open Scope Z_scope.

(** *** Stepping through awaited operations *)


Lemma call_returns {A : Type} (e : Event) (k : Z -> M A) (w : World) (r : Run)
    (v : Z) :
  w (clock r) = Returns v -> bind (call e) k w r = k v w (after e r).
Proof. intros H. unfold bind, call. now rewrite H. Qed.

Lemma call_rejects {A : Type} (e : Event) (k : Z -> M A) (w : World) (r : Run)
    (msg : string) :
  w (clock r) = Rejects msg -> bind (call e) k w r = (Exn msg, after e r).
Proof. intros H. unfold bind, call. now rewrite H. Qed.

(** With a fresh allowance that covers the amount, or a read that is
    rejected, [handleBurn] goes on to the submission. *)
Lemma handleBurn_with_direct (c : Closure) (approve : M unit)
    (w : World) (r : Run) :
  signer c = true -> JS.truthy_opt (tokenAddress c) = true ->
  (forall fresh, w (clock r) = Returns fresh -> parsedBurnAmount c <= fresh) ->
  handleBurn_with c approve w r = burn_submit c w (after ReadAllowance r).
Proof.
  intros Hs Ht Hw. unfold handleBurn_with, burn_check_allowance.
  rewrite Hs, Ht. cbn [negb]. unfold bind at 1, try_catch.
  destruct (w (clock r)) as [fresh | msg] eqn:E.
  - rewrite (call_returns _ _ _ _ fresh E).
    specialize (Hw fresh eq_refl).
    destruct (Z.ltb_spec fresh (parsedBurnAmount c)); [lia | reflexivity].
  - rewrite (call_rejects _ _ _ _ msg E). reflexivity.
Qed.

Lemma handleBurn_with_redirect_fuel (c : Closure) (approve : M unit)
    (w : World) (r : Run) (fresh : Z) :
  signer c = true -> JS.truthy_opt (tokenAddress c) = true ->
  w (clock r) = Returns fresh -> fresh < parsedBurnAmount c ->
  fst (approve w (after ReadAllowance r)) = Fuel ->
  fst (handleBurn_with c approve w r) = Fuel.
Proof.
  intros Hs Ht Hw Hlt Hf. unfold handleBurn_with, burn_check_allowance.
  rewrite Hs, Ht. cbn [negb]. unfold bind at 1, try_catch.
  rewrite (call_returns _ _ _ _ fresh Hw).
  destruct (Z.ltb_spec fresh (parsedBurnAmount c)); [| lia].
  unfold bind, detach. fold (after ReadAllowance r).
  destruct (approve w (after ReadAllowance r)) as [out r']. simpl in Hf.
  subst out. reflexivity.
Qed.

(** The body of [handleApprove] past its guard. *)
Lemma handleApprove_unfold (c : Closure) (n : nat) (w : World) (r : Run) :
  signer c = true -> JS.truthy_opt (tokenAddress c) = true ->
  handleApprove c (S n) w r
  = try_catch
      (bind (call SendApprove) (fun _ =>
       bind (call WaitTx) (fun _ =>
       bind (call Refresh) (fun _ =>
       handleBurn_with c (handleApprove c n)))))
      (fun _ => bind (setIsPending false) (fun _ => setLastAction None))
      w {| ui := setLastAction' (Some "approve") (setIsPending' true (ui r));
           log := log r; clock := clock r |}.
Proof.
  intros Hs Ht. cbn [handleApprove]. rewrite Hs, Ht. reflexivity.
Qed.

(** *** The burn button *)

(** A click with an amount whose quote is below the minimum burn value
    (or with no positive amount) shows a message and does nothing else: no
    operation is awaited and the component state is as before. *)
Theorem onBurnClick_rejects_below_threshold
    (c : Closure) (fuel : nat) (text : string) (w : World) (r : Run) :
  JS.truthy text = true ->
  parsedBurnAmount c <= 0
  \/ AMM.calculateBurnValue (tokenReserve c) (bnbReserve c) (parsedBurnAmount c)
     < minBurnValue c ->
  onBurnClick c fuel text w r
  = (Val tt, {| ui := ui r; log := log r ++ [ShowAlert AlertBurnValue];
                clock := clock r |}).
Proof.
  intros Ht Hlow. unfold onBurnClick. rewrite Ht.
  assert (E : burnValueCheck_isValid c = false).
  { unfold burnValueCheck_isValid.
    destruct (Z.leb_spec (parsedBurnAmount c) 0) as [| Hpos]; [reflexivity |].
    destruct Hlow as [Hle | Hlt]; [lia |].
    apply negb_false_iff. now apply Z.ltb_lt. }
  rewrite E. reflexivity.
Qed.

Lemma onBurnClick_rejects_below_threshold_witness :
  (JS.truthy "100" = true
   /\ AMM.calculateBurnValue (tokenReserve shallow_burn) (bnbReserve shallow_burn)
        (parsedBurnAmount shallow_burn) = 996900609009281
   /\ 996900609009281 < minBurnValue shallow_burn)
  /\ onBurnClick shallow_burn 2 "100" generous_world (start idle0)
     = (Val tt, {| ui := idle0; log := [ShowAlert AlertBurnValue]; clock := 0 |}).
Proof.
  split; [split; [reflexivity | split; [vm_compute; reflexivity | simpl; lia]] |].
  apply (onBurnClick_rejects_below_threshold shallow_burn 2 "100"
           generous_world (start idle0) eq_refl).
  right. vm_compute. reflexivity.
Defined.

(** *** The claim handlers *)



(** *** Approve then burn *)

(** When the approval is submitted, confirmed and followed by a refresh,
    and the allowance read afterwards covers the amount, one click goes
    through both steps: one approval, then the burn of the same amount, and
    the machine is idle at the end. *)
Theorem approve_then_burn_in_one_click
    (c : Closure) (fuel : nat) (w : World) (r : Run) (v0 v1 v2 fresh : Z) :
  signer c = true -> JS.truthy_opt (tokenAddress c) = true ->
  w (clock r) = Returns v0 ->
  w (S (clock r)) = Returns v1 ->
  w (S (S (clock r))) = Returns v2 ->
  w (S (S (S (clock r)))) = Returns fresh ->
  parsedBurnAmount c <= fresh ->
  exists rest,
    fst (handleApprove c (S fuel) w r) = Val tt
    /\ log (snd (handleApprove c (S fuel) w r))
       = log r ++ SendApprove :: WaitTx :: Refresh :: ReadAllowance
                  :: SendBurn (parsedBurnAmount c) (inviterAddr c) :: rest
    /\ ~ In SendApprove rest
    /\ idle (ui (snd (handleApprove c (S fuel) w r))).
Proof.
  intros Hs Ht H0 H1 H2 H3 Hcov.
  rewrite (handleApprove_unfold c fuel w r Hs Ht). unfold try_catch.
  rewrite (call_returns _ _ _ _ v0) by exact H0.
  rewrite (call_returns _ _ _ _ v1) by exact H1.
  rewrite (call_returns _ _ _ _ v2) by exact H2.
  rewrite handleBurn_with_direct; try assumption.
  2: { intros f E. cbn [after clock] in E. rewrite H3 in E.
       injection E as <-. exact Hcov. }
  match goal with
  | |- context [burn_submit c w ?r4] =>
      destruct (burn_submit_log c w r4) as (rest & E & Hno);
      destruct (burn_submit_idle c w r4) as [Hv Hi];
      destruct (burn_submit c w r4) as [out r'] eqn:Eb
  end.
  simpl in Hv, Hi, E. subst out. exists rest. simpl.
  split; [reflexivity |]. split; [| split; assumption].
  rewrite E. cbn [after log]. now rewrite <- !app_assoc.
Qed.

Lemma approve_then_burn_in_one_click_witness :
  (signer sample_closure = true
   /\ allowance sample_closure < parsedBurnAmount sample_closure
   /\ parsedBurnAmount sample_closure <= 5000000000000000000)
  /\ exists rest,
       log (snd (handleApprove sample_closure 1 generous_world (start idle0)))
       = [] ++ SendApprove :: WaitTx :: Refresh :: ReadAllowance
               :: SendBurn 2000000000000000000 (inviterAddr sample_closure)
               :: rest
       /\ idle (ui (snd (handleApprove sample_closure 1 generous_world
                           (start idle0)))).
Proof.
  split; [split; [reflexivity | split; simpl; lia] |].
  destruct (approve_then_burn_in_one_click sample_closure 0 generous_world
              (start idle0) _ _ _ 5000000000000000000
              eq_refl eq_refl eq_refl eq_refl eq_refl eq_refl)
    as (rest & _ & E & _ & Hi); [simpl; lia |].
  exists rest. split; [exact E | exact Hi].
Defined.

(** When the approval is rejected, or submitted and not confirmed, no burn
    follows: the handler ends with the machine idle and the amount field as
    it was. *)
Theorem failed_approval_sends_no_burn
    (c : Closure) (fuel : nat) (w : World) (r : Run) :
  signer c = true -> JS.truthy_opt (tokenAddress c) = true ->
  (exists msg, w (clock r) = Rejects msg)
  \/ (exists v msg, w (clock r) = Returns v /\ w (S (clock r)) = Rejects msg) ->
  exists rest,
    fst (handleApprove c (S fuel) w r) = Val tt
    /\ log (snd (handleApprove c (S fuel) w r)) = log r ++ SendApprove :: rest
    /\ (forall e, In e rest -> e = WaitTx)
    /\ idle (ui (snd (handleApprove c (S fuel) w r)))
    /\ burnAmount (ui (snd (handleApprove c (S fuel) w r))) = burnAmount (ui r).
Proof.
  intros Hs Ht Hfail.
  rewrite (handleApprove_unfold c fuel w r Hs Ht). unfold try_catch.
  destruct Hfail as [[msg H0] | (v & msg & H0 & H1)].
  - rewrite (call_rejects _ _ _ _ msg) by exact H0.
    exists []. repeat split; intros e [].
  - rewrite (call_returns _ _ _ _ v) by exact H0.
    rewrite (call_rejects _ _ _ _ msg) by exact H1.
    exists [WaitTx]. cbn. rewrite <- !app_assoc.
    repeat split. intros e [<- | []]. reflexivity.
Qed.

Lemma failed_approval_sends_no_burn_witness :
  (signer sample_closure = true
   /\ refusing_world 0%nat = Rejects "user rejected action")
  /\ exists rest,
       log (snd (handleApprove sample_closure 1 refusing_world (start idle0)))
       = [] ++ SendApprove :: rest
       /\ idle (ui (snd (handleApprove sample_closure 1 refusing_world
                           (start idle0)))).
Proof.
  split; [split; reflexivity |].
  destruct (failed_approval_sends_no_burn sample_closure 0 refusing_world
              (start idle0) eq_refl eq_refl)
    as (rest & _ & E & _ & Hi & _).
  - left. now exists "user rejected action".
  - exists rest. split; [exact E | exact Hi].
Defined.

(** While every allowance read stays below the amount and every operation
    succeeds, approve-then-burn keeps starting over: at every recursion
    bound it is still running, with the machine pending on the approval. *)
Theorem approval_cycle_stays_pending (c : Closure) (w : World) :
  signer c = true -> JS.truthy_opt (tokenAddress c) = true ->
  (forall n, exists v, w n = Returns v /\ v < parsedBurnAmount c) ->
  forall (fuel : nat) (r : Run),
    fst (handleApprove c (S fuel) w r) = Fuel
    /\ isPending (ui (snd (handleApprove c (S fuel) w r))) = true
    /\ lastAction (ui (snd (handleApprove c (S fuel) w r))) = Some "approve".
Proof.
  intros Hs Ht Hw.
  assert (Hgen : forall fuel r,
             isPending (ui r) = true -> lastAction (ui r) = Some "approve" ->
             fst (handleApprove c fuel w r) = Fuel
             /\ isPending (ui (snd (handleApprove c fuel w r))) = true
             /\ lastAction (ui (snd (handleApprove c fuel w r))) = Some "approve").
  { induction fuel as [| n IH]; intros r Hp Hl; [now repeat split |].
    rewrite (handleApprove_unfold c n w r Hs Ht). unfold try_catch.
    destruct (Hw (clock r)) as (v0 & H0 & _).
    destruct (Hw (S (clock r))) as (v1 & H1 & _).
    destruct (Hw (S (S (clock r)))) as (v2 & H2 & _).
    destruct (Hw (S (S (S (clock r))))) as (v3 & H3 & Hlow).
    rewrite (call_returns _ _ _ _ v0) by exact H0.
    rewrite (call_returns _ _ _ _ v1) by exact H1.
    rewrite (call_returns _ _ _ _ v2) by exact H2.
    match goal with
    | |- context [handleBurn_with c (handleApprove c n) w ?r3] =>
        pose proof (handleBurn_with_redirect c (handleApprove c n) w r3 v3
                      Hs Ht H3 Hlow) as Esnd;
        pose proof (handleBurn_with_redirect_fuel c (handleApprove c n) w r3 v3
                      Hs Ht H3 Hlow) as Efst;
        destruct (IH (after ReadAllowance r3) eq_refl eq_refl) as (If & Ip & Il);
        specialize (Efst If);
        destruct (handleBurn_with c (handleApprove c n) w r3) as [out r']
    end.
    simpl in Efst, Esnd. subst out r'. simpl. now repeat split. }
  intros fuel r.
  assert (E : handleApprove c (S fuel) w r
              = handleApprove c (S fuel) w
                  {| ui := setLastAction' (Some "approve")
                             (setIsPending' true (ui r));
                     log := log r; clock := clock r |})
    by (rewrite !handleApprove_unfold by assumption; reflexivity).
  rewrite E. apply Hgen; reflexivity.
Qed.

Lemma approval_cycle_stays_pending_witness :
  (signer sample_closure = true /\ 0 < parsedBurnAmount sample_closure)
  /\ fst (handleApprove sample_closure 5 barren_world (start idle0)) = Fuel
  /\ isPending (ui (snd (handleApprove sample_closure 5 barren_world (start idle0))))
     = true.
Proof.
  split; [split; [reflexivity | simpl; lia] |].
  destruct (approval_cycle_stays_pending sample_closure barren_world
              eq_refl eq_refl) with (fuel := 4%nat) (r := start idle0)
    as (Hf & Hp & _).
  - intros n. exists 0. split; [reflexivity | simpl; lia].
  - split; [exact Hf | exact Hp].
Defined.

(** *** The burn submission *)

(** If the allowance cannot be read, [handleBurn] submits the burn all the
    same and sends no approval. *)
Theorem unreadable_allowance_still_burns
    (c : Closure) (fuel : nat) (w : World) (r : Run) (msg : string) :
  signer c = true -> JS.truthy_opt (tokenAddress c) = true ->
  w (clock r) = Rejects msg ->
  exists rest,
    log (snd (handleBurn c fuel w r))
    = log r ++ ReadAllowance
               :: SendBurn (parsedBurnAmount c) (inviterAddr c) :: rest
    /\ ~ In SendApprove rest.
Proof.
  intros Hs Ht Hw. unfold handleBurn.
  rewrite handleBurn_with_direct; try assumption.
  2: { intros f E. rewrite Hw in E. discriminate. }
  destruct (burn_submit_log c w (after ReadAllowance r)) as (rest & E & Hno).
  exists rest. split; [| exact Hno].
  rewrite E. cbn [after log]. now rewrite <- app_assoc.
Qed.

Lemma unreadable_allowance_still_burns_witness :
  (signer sample_closure = true
   /\ refusing_world 0%nat = Rejects "user rejected action")
  /\ exists rest,
       log (snd (handleBurn sample_closure 0 refusing_world (start idle0)))
       = [] ++ ReadAllowance
               :: SendBurn 2000000000000000000 (inviterAddr sample_closure)
               :: rest.
Proof.
  split; [split; reflexivity |].
  destruct (unreadable_allowance_still_burns sample_closure 0 refusing_world
              (start idle0) "user rejected action" eq_refl eq_refl eq_refl)
    as (rest & E & _).
  exists rest. exact E.
Defined.

(** The amount field is emptied exactly when the burn was submitted and
    confirmed, whether or not the refresh that follows succeeds; after a
    failure it keeps the amount for another try. *)
Theorem burn_amount_cleared_on_confirmation (c : Closure) (w : World) (r : Run) :
  burnAmount (ui (snd (burn_submit c w r)))
  = match w (clock r), w (S (clock r)) with
    | Returns _, Returns _ => ""
    | _, _ => burnAmount (ui r)
    end.
Proof.
  unfold burn_submit. run_monad. simpl.
  destruct (w (clock r)) as [v0 | m0]; simpl.
  - destruct (w (S (clock r))) as [v1 | m1]; simpl.
    + destruct (w (S (S (clock r)))) as [v2 | m2]; simpl; [reflexivity |].
      match goal with
      | |- context [burn_failed ?msg ?w ?r0] =>
          destruct (burn_failed_keeps_state msg w r0) as [Hv Hu];
          destruct (burn_failed msg w r0) as [out r']
      end.
      simpl in Hv, Hu. subst out. simpl. now rewrite Hu.
    + match goal with
      | |- context [burn_failed ?msg ?w ?r0] =>
          destruct (burn_failed_keeps_state msg w r0) as [Hv Hu];
          destruct (burn_failed msg w r0) as [out r']
      end.
      simpl in Hv, Hu. subst out. simpl. now rewrite Hu.
  - match goal with
    | |- context [burn_failed ?msg ?w ?r0] =>
        destruct (burn_failed_keeps_state msg w r0) as [Hv Hu];
        destruct (burn_failed msg w r0) as [out r']
    end.
    simpl in Hv, Hu. subst out. simpl. now rewrite Hu.
Qed.

(** *** Failure messages *)

Lemma includes_unfold (needle hay : string) :
  JS.includes needle hay
  = String.prefix needle hay
    || match hay with
       | EmptyString => false
       | String _ rest => JS.includes needle rest
       end.
Proof. destruct hay; reflexivity. Qed.

Lemma prefix_append (p s : string) : String.prefix p (p ++ s)%string = true.
Proof.
  induction p as [| a p IH]; simpl; [now destruct s |].
  destruct (Ascii.ascii_dec a a); [exact IH | contradiction].
Qed.

Lemma prefix_split (p s : string) :
  String.prefix p s = true -> exists post, s = (p ++ post)%string.
Proof.
  revert s. induction p as [| a p IH]; intros s H.
  - now exists s.
  - destruct s as [| b s]; simpl in H; [discriminate |].
    destruct (Ascii.ascii_dec a b) as [<- |]; [| discriminate].
    destruct (IH s H) as [post ->]. now exists post.
Qed.

(** [includes] finds a needle exactly when it occurs somewhere. *)
Lemma includes_contains (needle hay : string) :
  JS.includes needle hay = true <-> contains needle hay.
Proof.
  split.
  - induction hay as [| a hay IH]; rewrite includes_unfold; intros H;
      apply orb_true_iff in H as [H | H].
    + destruct (prefix_split _ _ H) as [post E]. now exists EmptyString, post.
    + discriminate.
    + destruct (prefix_split _ _ H) as [post E]. now exists EmptyString, post.
    + destruct (IH H) as (pre & post & ->). now exists (String a pre), post.
  - intros (pre & post & ->). induction pre as [| a pre IH].
    + rewrite includes_unfold. simpl append. now rewrite prefix_append.
    + change (String a pre ++ needle ++ post)%string
        with (String a (pre ++ needle ++ post)%string).
      rewrite includes_unfold, IH. apply orb_true_r.
Qed.

(** A failed burn shows exactly one message and changes nothing else.  The
    message is chosen by the first marker that occurs in the error text, in
    the order minimum burn value, router input amount, allowance; with none
    of them it is the first hundred characters of the text. *)
Theorem burn_failure_message (msg : string) (w : World) (r : Run) :
  exists a,
    burn_failed msg w r
    = (Val tt, {| ui := ui r; log := log r ++ [ShowAlert a]; clock := clock r |})
    /\ (contains "BELOW_MIN_BURN_VALUE" msg -> a = AlertBelowMinBurn)
    /\ (~ contains "BELOW_MIN_BURN_VALUE" msg ->
        contains "PancakeLibrary: INSUFFICIENT_INPUT_AMOUNT" msg ->
        a = AlertLiquidity)
    /\ (~ contains "BELOW_MIN_BURN_VALUE" msg ->
        ~ contains "PancakeLibrary: INSUFFICIENT_INPUT_AMOUNT" msg ->
        contains "exceeds allowance" msg ->
        a = AlertAllowance)
    /\ (~ contains "BELOW_MIN_BURN_VALUE" msg ->
        ~ contains "PancakeLibrary: INSUFFICIENT_INPUT_AMOUNT" msg ->
        ~ contains "exceeds allowance" msg ->
        exists shown,
          a = AlertRaw shown
          /\ String.prefix shown msg = true
          /\ String.length shown = Nat.min 100 (String.length msg)).
Proof.
  unfold burn_failed.
  destruct (JS.includes "BELOW_MIN_BURN_VALUE" msg) eqn:E1.
  { apply includes_contains in E1. exists AlertBelowMinBurn.
    repeat split; try reflexivity; intros; contradiction. }
  assert (N1 : ~ contains "BELOW_MIN_BURN_VALUE" msg)
    by (intros H; apply includes_contains in H; congruence).
  destruct (JS.includes "PancakeLibrary: INSUFFICIENT_INPUT_AMOUNT" msg) eqn:E2.
  { apply includes_contains in E2. exists AlertLiquidity.
    repeat split; try reflexivity; intros; contradiction. }
  assert (N2 : ~ contains "PancakeLibrary: INSUFFICIENT_INPUT_AMOUNT" msg)
    by (intros H; apply includes_contains in H; congruence).
  destruct (JS.includes "exceeds allowance" msg) eqn:E3.
  { apply includes_contains in E3. exists AlertAllowance.
    repeat split; try reflexivity; intros; contradiction. }
  assert (N3 : ~ contains "exceeds allowance" msg)
    by (intros H; apply includes_contains in H; congruence).
  exists (AlertRaw (JS.slice0 100 msg)).
  repeat split; try reflexivity; try (intros; contradiction).
  intros _ _ _. exists (JS.slice0 100 msg). split; [reflexivity |].
  unfold JS.slice0. generalize 100%nat as n. clear.
  intros n. revert n. induction msg as [| a msg IH]; intros [| n]; simpl;
    try (split; reflexivity).
  destruct (IH n) as [Hp Hl].
  destruct (Ascii.ascii_dec a a); [| contradiction].
  split; [exact Hp | now rewrite Hl].
Qed.

Lemma burn_failure_message_witness :
  contains "BELOW_MIN_BURN_VALUE" "execution reverted: BELOW_MIN_BURN_VALUE"
  /\ burn_failed "execution reverted: BELOW_MIN_BURN_VALUE" generous_world
       (start idle0)
     = (Val tt, {| ui := idle0; log := [ShowAlert AlertBelowMinBurn]; clock := 0 |}).
Proof.
  assert (Hc : contains "BELOW_MIN_BURN_VALUE"
                 "execution reverted: BELOW_MIN_BURN_VALUE")
    by (exists "execution reverted: ", ""; reflexivity).
  split; [exact Hc |].
  destruct (burn_failure_message "execution reverted: BELOW_MIN_BURN_VALUE"
              generous_world (start idle0)) as (a & E & H1 & _).
  rewrite E, (H1 Hc). reflexivity.
Defined.

(** *** The subscription handler *)

Ltac tidy_log := rewrite <- ?app_assoc; cbn [app].

Ltac no_such_event :=
  let e := fresh in
  intros ? ? e; simpl in e;
  repeat match goal with
         | H : _ \/ _ |- _ => destruct H
         | H : False |- _ => contradiction
         | H : _ = SendSubscribe _ _ |- _ => discriminate H
         end.

(** A subscription is submitted only by a connected account on chain 56
    with a signer and an address, with the subscription contract
    configured, and with a balance that was read and covers the price or
    could not be read.  It is for the resolved inviter and carries the price
    of one share.  In particular a successful network switch is not followed
    by a submission. *)
Theorem handleSubscribe_submits_only_past_guards
    (cs : Ethers.Checksums) (c : Closure) (w : World) (r : Run) :
  exists rest,
    log (snd (handleSubscribe cs c w r)) = log r ++ rest
    /\ forall inv value,
         In (SendSubscribe inv value) rest ->
         isConnected c = true /\ on_bsc c = true /\ signer c = true
         /\ JS.truthy_opt (address c) = true
         /\ nftSubscriptionConfigured c = true
         /\ inv = inviterAddress cs c /\ value = nftSubPrice c
         /\ (forall balance,
               w (clock r) = Returns balance -> nftSubPrice c <= balance).
Proof.
  unfold handleSubscribe.
  destruct (isConnected c) eqn:Hc; cbn [negb];
    [| exists [OpenModal]; split; [reflexivity | no_such_event]].
  destruct (on_bsc c) eqn:Hn; cbn [negb].
  2: { run_monad. destruct (w (clock r)); simpl; tidy_log;
       eexists; (split; [reflexivity | no_such_event]). }
  destruct (signer c) eqn:Hs; cbn [negb];
    [| exists []; split; [simpl; now rewrite app_nil_r | no_such_event]].
  destruct (JS.truthy_opt (address c)) eqn:Ha; cbn [negb];
    [| exists []; split; [simpl; now rewrite app_nil_r | no_such_event]].
  run_monad.
  destruct (w (clock r)) as [balance | msg] eqn:Hw.
  - destruct (Z.ltb_spec balance (nftSubPrice c)) as [Hlt | Hge].
    + simpl. tidy_log. eexists. split; [reflexivity | no_such_event].
    + assert (Hb : forall b, Returns balance = Returns b -> nftSubPrice c <= b)
        by (intros b E; injection E as <-; exact Hge).
      destruct (nftSubscriptionConfigured c) eqn:Hcfg; simpl.
      * ask_world; tidy_log; eexists; (split; [reflexivity |]);
          intros inv value Hin; simpl in Hin;
          repeat match goal with
                 | H : _ \/ _ |- _ => destruct H
                 | H : False |- _ => contradiction
                 | H : ReadBalance = SendSubscribe _ _ |- _ => discriminate H
                 | H : WaitTx = SendSubscribe _ _ |- _ => discriminate H
                 | H : ReadTwoLevel = SendSubscribe _ _ |- _ => discriminate H
                 | H : ReadTeam = SendSubscribe _ _ |- _ => discriminate H
                 | H : ShowAlert _ = SendSubscribe _ _ |- _ => discriminate H
                 | H : SendSubscribe _ _ = SendSubscribe _ _ |- _ =>
                     injection H as <- <-
                 end;
          repeat split; assumption.
      * tidy_log. eexists. split; [reflexivity | no_such_event].
  - assert (Hb : forall b, Rejects msg = Returns b -> nftSubPrice c <= b)
      by (intros b E; discriminate).
    destruct (nftSubscriptionConfigured c) eqn:Hcfg; simpl.
    + ask_world; tidy_log; eexists; (split; [reflexivity |]);
        intros inv value Hin; simpl in Hin;
        repeat match goal with
               | H : _ \/ _ |- _ => destruct H
               | H : False |- _ => contradiction
               | H : ReadBalance = SendSubscribe _ _ |- _ => discriminate H
               | H : WaitTx = SendSubscribe _ _ |- _ => discriminate H
               | H : ReadTwoLevel = SendSubscribe _ _ |- _ => discriminate H
               | H : ReadTeam = SendSubscribe _ _ |- _ => discriminate H
               | H : ShowAlert _ = SendSubscribe _ _ |- _ => discriminate H
               | H : SendSubscribe _ _ = SendSubscribe _ _ |- _ =>
                   injection H as <- <-
               end;
        repeat split; assumption.
    + tidy_log. eexists. split; [reflexivity | no_such_event].
Qed.

Lemma handleSubscribe_submits_only_past_guards_witness :
  In (SendSubscribe Ethers.ZeroAddress 100)
     (log (snd (handleSubscribe sample_checksums sample_closure generous_world
                  (start idle0))))
  /\ on_bsc sample_closure = true
  /\ nftSubPrice sample_closure = 100.
Proof.
  assert (Hin : In (SendSubscribe Ethers.ZeroAddress 100)
                  (log (snd (handleSubscribe sample_checksums sample_closure
                               generous_world (start idle0)))))
    by (right; left; reflexivity).
  split; [exact Hin |].
  destruct (handleSubscribe_submits_only_past_guards sample_checksums
              sample_closure generous_world (start idle0)) as (rest & E & H).
  simpl app in E. rewrite E in Hin.
  destruct (H _ _ Hin) as (_ & Hn & _ & _ & _ & _ & Hv & _).
  split; [exact Hn | now rewrite <- Hv].
Defined.


(** *** The pending flag *)

(** No handler that comes to an end leaves the buttons disabled: started
    with the pending flag cleared, the claim handlers and the subscription
    handler end with it cleared on every path, and so do the burn and
    approval handlers whenever they end. *)
Theorem pending_flag_always_cleared (cs : Ethers.Checksums) (c : Closure)
    (w : World) (r : Run) :
  isPending (ui r) = false ->
  (forall k, isPending (ui (snd (handleClaim c k w r))) = false)
  /\ isPending (ui (snd (handleSubscribe cs c w r))) = false
  /\ (forall fuel, fst (handleBurn c fuel w r) <> Fuel ->
        isPending (ui (snd (handleBurn c fuel w r))) = false)
  /\ (forall fuel, fst (handleApprove c fuel w r) <> Fuel ->
        isPending (ui (snd (handleApprove c fuel w r))) = false).
Proof.
  intros Hp. split; [| split; [| split]].
  - intros k. destruct (signer c) eqn:Hs.
    + apply (handleClaim_idle c k w r Hs).
    + now rewrite (handleClaim_no_signer c k w r Hs).
  - unfold handleSubscribe.
    destruct (isConnected c); cbn [negb]; [| exact Hp].
    destruct (on_bsc c) eqn:Hn; cbn [negb].
    2: { run_monad. destruct (w (clock r)); exact Hp. }
    destruct (signer c) eqn:Hs; cbn [negb]; [| exact Hp].
    destruct (JS.truthy_opt (address c)) eqn:Ha; cbn [negb]; [| exact Hp].
    run_monad.
    destruct (w (clock r)) as [balance | msg].
    + destruct (balance <? nftSubPrice c); [exact Hp |].
      destruct (nftSubscriptionConfigured c); simpl; [| reflexivity].
      ask_world; reflexivity.
    + destruct (nftSubscriptionConfigured c); simpl; [| reflexivity].
      ask_world; reflexivity.
  - intros fuel Hf. destruct (signer c) eqn:Hs.
    + destruct (handleBurn_settles c fuel Hs w r) as [F | [I _]];
        [contradiction | exact I].
    + unfold handleBurn, handleBurn_with. rewrite Hs. exact Hp.
  - intros fuel Hf.
    destruct (signer c) eqn:Hs; [destruct (JS.truthy_opt (tokenAddress c)) eqn:Ht |].
    + destruct (handleApprove_settles c fuel Hs Ht w r) as [F | [I _]];
        [contradiction | exact I].
    + destruct fuel as [| n]; [contradiction Hf; reflexivity |].
      cbn [handleApprove]. rewrite Hs, Ht. exact Hp.
    + destruct fuel as [| n]; [contradiction Hf; reflexivity |].
      cbn [handleApprove]. rewrite Hs. exact Hp.
Qed.

Lemma pending_flag_always_cleared_witness :
  isPending (ui (start idle0)) = false
  /\ isPending (ui (snd (handleSubscribe sample_checksums sample_closure
                           refusing_world (start idle0)))) = false
  /\ isPending (ui (snd (handleBurn sample_closure 3 generous_world
                           (start idle0)))) = false.
Proof.
  split; [reflexivity |].
  destruct (pending_flag_always_cleared sample_checksums sample_closure
              refusing_world (start idle0) eq_refl) as (_ & Hs & _).
  destruct (pending_flag_always_cleared sample_checksums sample_closure
              generous_world (start idle0) eq_refl) as (_ & _ & Hb & _).
  split; [exact Hs |]. apply Hb. vm_compute. discriminate.
Defined.

End HandlerFacts.

(** ** The refresh *)

Module ReaderFacts.

Import Reader.
Local Open Scope string_scope.
Local Open Scope Z_scope.

Lemma or0_id (x : Z) : or0 x = x.
Proof. unfold or0. destruct (Z.eqb_spec x 0); congruence. Qed.

(** Case analysis on every test of a group. *)
Ltac branches :=
  repeat match goal with
         | |- context [if ?b then _ else _] => destruct b eqn:?
         | |- context [match ?x with Some _ => _ | None => _ end] =>
             destruct x eqn:?
         end.

(** *** What each group leaves alone *)

Lemma load_pool_frame (rd : Reads) (tokenAddr : string) (d : Data) :
  offchainStatus (load_pool rd tokenAddr d) = offchainStatus d
  /\ registry (load_pool rd tokenAddr d) = registry d
  /\ tokenInfo (load_pool rd tokenAddr d) = tokenInfo d
  /\ lossDiv (load_pool rd tokenAddr d) = lossDiv d.
Proof. unfold load_pool. cbv zeta. branches; repeat split. Qed.

Lemma load_lossDividend_frame (C : Contracts) (rd : Reads) (tokenAddr : string)
    (d : Data) :
  offchainStatus (load_lossDividend C rd tokenAddr d) = offchainStatus d
  /\ registry (load_lossDividend C rd tokenAddr d) = registry d
  /\ tokenInfo (load_lossDividend C rd tokenAddr d) = tokenInfo d.
Proof.
  unfold load_lossDividend. cbv zeta.
  destruct (configured (lossDividend C)); [| repeat split].
  match goal with
  | |- context [load_pool rd tokenAddr ?d0] =>
      destruct (load_pool_frame rd tokenAddr d0) as (Ho & Hr & Ht & _)
  end.
  rewrite Ho, Hr, Ht. repeat split.
Qed.

Lemma load_nftSubscription_frame (C : Contracts) (rd : Reads) (d : Data) :
  offchainStatus (load_nftSubscription C rd d) = offchainStatus d
  /\ registry (load_nftSubscription C rd d) = registry d
  /\ tokenInfo (load_nftSubscription C rd d) = tokenInfo d
  /\ lossDiv (load_nftSubscription C rd d) = lossDiv d
  /\ pool (load_nftSubscription C rd d) = pool d.
Proof. unfold load_nftSubscription. branches; repeat split. Qed.

Lemma load_token_frame (rd : Reads) (tokenAddr : string) (d : Data) :
  offchainStatus (load_token rd tokenAddr d) = offchainStatus d
  /\ registry (load_token rd tokenAddr d) = registry d
  /\ lossDiv (load_token rd tokenAddr d) = lossDiv d
  /\ pool (load_token rd tokenAddr d) = pool d.
Proof. unfold load_token. branches; repeat split. Qed.

Lemma load_registry_frame (C : Contracts) (rd : Reads) (d : Data)
    (tokenAddr : string) (d1 : Data) :
  load_registry C rd d = Some (tokenAddr, d1) ->
  offchainStatus d1 = offchainStatus d
  /\ tokenInfo d1 = tokenInfo d
  /\ lossDiv d1 = lossDiv d
  /\ pool d1 = pool d.
Proof.
  unfold load_registry. branches; intros E; try discriminate;
    injection E as <- <-; repeat split.
Qed.


(** A refresh either stopped early, leaving everything but the off-chain
    snapshot as it was, or went through every group. *)
Lemma loadContractData_cases (C : Contracts) (rd : Reads)
    (address : option string) (d : Data) :
  loadContractData C rd address d = with_offchainStatus None d
  \/ exists tokenAddr d1,
       JS.truthy_opt address = true
       /\ load_registry C rd (with_offchainStatus None d) = Some (tokenAddr, d1)
       /\ loadContractData C rd address d = stages C rd tokenAddr d1.
Proof.
  unfold loadContractData. cbv zeta.
  destruct (JS.truthy_opt address); cbn [negb]; [| now left].
  destruct (load_registry C rd (with_offchainStatus None d)) as [[tokenAddr d1] |];
    [| now left].
  right. now exists tokenAddr, d1.
Qed.

Lemma stages_lossDiv (C : Contracts) (rd : Reads) (tokenAddr : string) (d1 : Data) :
  lossDiv (stages C rd tokenAddr d1)
  = lossDiv (load_lossDividend C rd tokenAddr
               (load_nftSubscription C rd
                  (load_burnDividend rd (load_token rd tokenAddr d1)))).
Proof. reflexivity. Qed.

(** *** The off-chain snapshot *)

Lemma null_offchain_reachable (p : Reconciler.Position) :
  Reconciler.offchainStatus p = None -> Reconciler.reachable p.
Proof.
  destruct p as [o s c h]. simpl. intros ->.
  change (Reconciler.reachable
            (Reconciler.setHoldingValue h
               (Reconciler.setCachedLoss c
                  (Reconciler.setLossSnapshot s
                     (Reconciler.fetchOffchainStatus Reconciler.initial))))).
  eapply Reconciler.reach_step; [| apply Reconciler.step_holding].
  eapply Reconciler.reach_step; [| apply Reconciler.step_cached].
  eapply Reconciler.reach_step; [| apply Reconciler.step_snapshot].
  eapply Reconciler.reach_step;
    [apply Reconciler.reach_initial | apply Reconciler.step_fetch].
Qed.

Lemma refresh_clears_offchain_aux (C : Contracts) (rd : Reads)
    (address : option string) (d : Data) :
  offchainStatus (loadContractData C rd address d) = None.
Proof.
  destruct (loadContractData_cases C rd address d)
    as [-> | (tokenAddr & d1 & _ & Hreg & ->)]; [reflexivity |].
  unfold stages, load_nftDividend, load_burnDividend. cbv zeta. simpl.
  destruct (load_lossDividend_frame C rd tokenAddr
              (load_nftSubscription C rd
                 (with_burnDiv
                    {| burnUnpaidBNB := read (bd_getUnpaidDividendBNB rd) 0;
                       burnUnpaidToken := read (bd_getUnpaidDividendToken rd) 0 |}
                    (load_token rd tokenAddr d1)))) as (-> & _).
  destruct (load_nftSubscription_frame C rd
              (with_burnDiv
                 {| burnUnpaidBNB := read (bd_getUnpaidDividendBNB rd) 0;
                    burnUnpaidToken := read (bd_getUnpaidDividendToken rd) 0 |}
                 (load_token rd tokenAddr d1))) as (-> & _).
  simpl.
  destruct (load_token_frame rd tokenAddr d1) as (-> & _).
  destruct (load_registry_frame C rd _ _ _ Hreg) as (-> & _). reflexivity.
Qed.

(** The off-chain snapshot is null in every state of the contract data. *)
Lemma reachable_offchain_null (ok : Contracts -> Reads -> Prop) (d : Data) :
  reachable ok d -> offchainStatus d = None.
Proof.
  induction 1 as [| d C rd address _ _ _ | d a b _ IH];
    [reflexivity | apply refresh_clears_offchain_aux | exact IH].
Qed.

(** Every refresh clears the off-chain snapshot, also with no account
    connected and when it stops at the registry probe; the figures derived
    after it are the on-chain ones, the loss counting only while the cached
    loss is valid. *)
Theorem refresh_clears_offchain (C : Contracts) (rd : Reads)
    (address : option string) (d : Data) :
  let d' := loadContractData C rd address d in
  offchainStatus d' = None
  /\ Reconciler.reachable (position_of d')
  /\ Reconciler.eff_costBasis (position_of d')
     = Reconciler.snap_costBasis (lossSnapshot (lossDiv d'))
  /\ Reconciler.eff_soldValue (position_of d')
     = Reconciler.snap_soldValue (lossSnapshot (lossDiv d'))
  /\ Reconciler.eff_holdingValue (position_of d') = holdingValue (pool d')
  /\ Reconciler.eff_lossAmount (position_of d')
     = (if Reconciler.valid (cachedLoss (lossDiv d'))
        then Reconciler.loss (cachedLoss (lossDiv d')) else 0).
Proof.
  cbv zeta.
  pose proof (refresh_clears_offchain_aux C rd address d) as E.
  split; [exact E |].
  split; [apply null_offchain_reachable; exact E |].
  unfold Reconciler.eff_costBasis, Reconciler.eff_soldValue,
    Reconciler.eff_holdingValue, Reconciler.eff_lossAmount.
  unfold position_of. simpl. rewrite E. repeat split.
Qed.

(** *** The loss dividend figures *)


Lemma load_lossDividend_consistent (C : Contracts) (rd : Reads)
    (tokenAddr : string) (d : Data) :
  loss_consistent (lossDiv (load_lossDividend C rd tokenAddr d)).
Proof.
  unfold load_lossDividend. cbv zeta.
  destruct (configured (lossDividend C)).
  - match goal with
    | |- context [load_pool rd tokenAddr ?d0] =>
        destruct (load_pool_frame rd tokenAddr d0) as (_ & _ & _ & ->)
    end.
    unfold loss_consistent. simpl. split.
    + destruct (Z.gtb_spec
                  (read (ld_getBalance rd) 0 + read (ld_totalDividendsClaimed rd) 0)
                  (read (ld_totalDividendsAllocated rd) 0)); lia.
    + destruct (read (ld_getCachedLoss rd) (0, false)) as [l [|]]; simpl.
      * rewrite or0_id. destruct (Z.gtb_spec l 0); [intros _; now split |].
        intros Hne. contradiction.
      * intros Hne. contradiction.
  - unfold loss_consistent. simpl. split; [lia | intros Hne; contradiction].
Qed.

Lemma reachable_loss_consistent (d : Data) :
  reachable any_run d -> loss_consistent (lossDiv d).
Proof.
  induction 1 as [| d C rd address _ IH _ | d a b _ IH].
  - unfold loss_consistent. simpl. split; [lia | intros H; contradiction].
  - destruct (loadContractData_cases C rd address d)
      as [-> | (tokenAddr & d1 & _ & _ & ->)]; [exact IH |].
    rewrite stages_lossDiv. apply load_lossDividend_consistent.
  - exact IH.
Qed.

(** The undistributed balance shown for the loss dividend contract is
    never negative, whatever the chain reports. *)
Theorem undistributed_balance_nonnegative (d : Data) :
  reachable any_run d -> 0 <= lossContractBalance (lossDiv d).
Proof. intros H. apply (reachable_loss_consistent d H). Qed.

(** The pending dividend a refresh writes is other than zero only when
    the cached loss the same refresh wrote is valid and positive and the
    read of the unpaid dividend returned that value: without a valid,
    positive cached loss the refresh writes zero. *)
Theorem refresh_pending_needs_loss (C : Contracts) (rd : Reads)
    (tokenAddr : string) (d : Data) :
  let written := lossDiv (load_lossDividend C rd tokenAddr d) in
  lossPendingDividend written <> 0 ->
  configured (lossDividend C) = true
  /\ Reconciler.valid (cachedLoss written) = true
  /\ 0 < Reconciler.loss (cachedLoss written)
  /\ ld_getCachedLoss rd = Some (Reconciler.loss (cachedLoss written), true)
  /\ ld_getUnpaidDividend rd = Some (lossPendingDividend written).
Proof.
  cbv zeta. unfold load_lossDividend. cbv zeta.
  destruct (configured (lossDividend C));
    [| simpl; intros Hne; contradiction Hne; reflexivity].
  match goal with
  | |- context [load_pool rd tokenAddr ?d0] =>
      destruct (load_pool_frame rd tokenAddr d0) as (_ & _ & _ & ->)
  end.
  simpl.
  destruct (ld_getCachedLoss rd) as [[l [|]] |]; simpl;
    try (intros Hne; contradiction Hne; reflexivity).
  rewrite or0_id.
  destruct (Z.gtb_spec l 0) as [Hpos | _];
    [| intros Hne; contradiction Hne; reflexivity].
  destruct (ld_getUnpaidDividend rd) as [p |]; simpl;
    [| intros Hne; contradiction Hne; reflexivity].
  intros _. repeat split. lia.
Qed.

Lemma refreshed_reachable (ok : Contracts -> Reads -> Prop) :
  ok full_deployment healthy_reads -> reachable ok refreshed.
Proof.
  intros H. unfold refreshed. apply reach_refresh; [apply reach_initial | exact H].
Qed.

Lemma undistributed_balance_nonnegative_witness :
  lossContractBalance (lossDiv refreshed) = 0
  /\ 0 <= lossContractBalance (lossDiv refreshed).
Proof.
  split; [reflexivity |].
  apply (undistributed_balance_nonnegative refreshed (refreshed_reachable any_run I)).
Defined.

Lemma refresh_pending_needs_loss_witness :
  lossPendingDividend
    (lossDiv (load_lossDividend full_deployment healthy_reads
                "0x00000000000000000000000000000000000000Bb" initial))
  = 200000000000000000
  /\ ld_getCachedLoss healthy_reads = Some (3000000000000000000, true).
Proof.
  split; [reflexivity |].
  destruct (refresh_pending_needs_loss full_deployment healthy_reads
              "0x00000000000000000000000000000000000000Bb" initial)
    as (_ & _ & _ & E & _); [vm_compute; discriminate |].
  exact E.
Defined.

(** *** What a refresh leaves stale *)

(** With no account, or when the probe of the burn registry is rejected,
    the refresh stops: apart from the off-chain snapshot nothing is written,
    not even the groups that do not depend on the registry. *)
Theorem refresh_stops_early (C : Contracts) (rd : Reads)
    (address : option string) (d : Data) :
  JS.truthy_opt address = false
  \/ (configured (burnToken C) = true /\ code_burnToken rd = None) ->
  loadContractData C rd address d = with_offchainStatus None d.
Proof.
  intros [Ha | [Hc Hr]]; unfold loadContractData; cbv zeta.
  - now rewrite Ha.
  - destruct (JS.truthy_opt address); [| reflexivity]. cbn [negb].
    unfold load_registry. now rewrite Hc, Hr.
Qed.

Lemma refresh_stops_early_witness :
  (configured (burnToken full_deployment) = true
   /\ code_burnToken all_rejected = None)
  /\ nftSub (loadContractData full_deployment all_rejected
               (Some "0x00000000000000000000000000000000000000aa") refreshed)
     = nftSub refreshed.
Proof.
  split; [split; reflexivity |].
  rewrite (refresh_stops_early full_deployment all_rejected _ refreshed);
    [reflexivity |].
  right. split; reflexivity.
Defined.

(** The token figures (symbol, balance, allowance) are written only by a
    refresh that found the burn registry deployed and got from it a token
    address other than the zero address; in every other case they stay as
    they were, they are not reset. *)
Theorem token_figures_change_only_with_registry (C : Contracts) (rd : Reads)
    (address : option string) (d : Data) :
  tokenInfo (loadContractData C rd address d) <> tokenInfo d ->
  JS.truthy_opt address = true
  /\ configured (burnToken C) = true
  /\ (exists code, code_burnToken rd = Some code /\ code <> "0x")
  /\ configured (read (bt_token rd) Ethers.ZeroAddress) = true.
Proof.
  intros Hne.
  destruct (loadContractData_cases C rd address d)
    as [E | (tokenAddr & d1 & Ha & Hreg & E)]; rewrite E in Hne.
  - contradiction Hne. reflexivity.
  - unfold stages, load_nftDividend, load_burnDividend in Hne. simpl in Hne.
    destruct (load_lossDividend_frame C rd tokenAddr
                (load_nftSubscription C rd
                   (with_burnDiv
                      {| burnUnpaidBNB := read (bd_getUnpaidDividendBNB rd) 0;
                         burnUnpaidToken := read (bd_getUnpaidDividendToken rd) 0 |}
                      (load_token rd tokenAddr d1)))) as (_ & _ & Ht1).
    destruct (load_nftSubscription_frame C rd
                (with_burnDiv
                   {| burnUnpaidBNB := read (bd_getUnpaidDividendBNB rd) 0;
                      burnUnpaidToken := read (bd_getUnpaidDividendToken rd) 0 |}
                   (load_token rd tokenAddr d1))) as (_ & _ & Ht2 & _).
    rewrite Ht1, Ht2 in Hne. simpl in Hne.
    destruct (load_registry_frame C rd _ _ _ Hreg) as (_ & Ht3 & _).
    simpl in Ht3.
    unfold load_token in Hne.
    destruct (configured tokenAddr) eqn:Hcfg;
      [| rewrite Ht3 in Hne; contradiction Hne; reflexivity].
    split; [exact Ha |].
    unfold load_registry in Hreg.
    destruct (configured (burnToken C)) eqn:Hb.
    + destruct (code_burnToken rd) as [code |] eqn:Hcode; [| discriminate].
      destruct (String.eqb_spec code "0x") as [-> | Hcd]; simpl in Hreg.
      * injection Hreg as <- _. discriminate.
      * injection Hreg as <- _. repeat split; [| exact Hcfg].
        exists code. now split.
    + injection Hreg as <- _. discriminate.
Qed.

Lemma token_figures_change_only_with_registry_witness :
  tokenInfo refreshed <> tokenInfo initial
  /\ configured (burnToken full_deployment) = true
  /\ configured (read (bt_token healthy_reads) Ethers.ZeroAddress) = true.
Proof.
  assert (Hne : tokenInfo refreshed <> tokenInfo initial)
    by (vm_compute; discriminate).
  split; [exact Hne |].
  destruct (token_figures_change_only_with_registry full_deployment healthy_reads
              (Some "0x00000000000000000000000000000000000000aa") initial Hne)
    as (_ & Hb & _ & Ht).
  split; [exact Hb | exact Ht].
Defined.

(** The registry, token figures and pool figures after the stages are
    those of the registry result, of [load_token] and of [load_pool]. *)
Lemma stages_view (C : Contracts) (rd : Reads) (tokenAddr : string) (d1 : Data) :
  registry (stages C rd tokenAddr d1) = registry d1
  /\ tokenInfo (stages C rd tokenAddr d1) = tokenInfo (load_token rd tokenAddr d1)
  /\ (pool (stages C rd tokenAddr d1) = pool d1
      \/ (configured (lossDividend C) = true
          /\ exists d2, pool d2 = pool d1
               /\ pool (stages C rd tokenAddr d1) = pool (load_pool rd tokenAddr d2))).
Proof.
  unfold stages, load_nftDividend, load_burnDividend. simpl.
  set (d3 := load_nftSubscription C rd _).
  assert (H3 : registry d3 = registry d1 /\ tokenInfo d3 = tokenInfo (load_token rd tokenAddr d1)
               /\ pool d3 = pool d1).
  { unfold d3.
    match goal with
    | |- context [load_nftSubscription C rd ?x] =>
        destruct (load_nftSubscription_frame C rd x) as (_ & -> & -> & _ & ->)
    end.
    simpl. destruct (load_token_frame rd tokenAddr d1) as (_ & -> & _ & ->).
    repeat split. }
  destruct H3 as (Hr & Ht & Hp).
  destruct (load_lossDividend_frame C rd tokenAddr d3) as (_ & -> & ->).
  split; [exact Hr |]. split; [exact Ht |].
  unfold load_lossDividend. cbv zeta.
  destruct (configured (lossDividend C)); [| left; exact Hp].
  right. split; [reflexivity |]. eexists. split; [| reflexivity]. exact Hp.
Qed.

Lemma load_pool_changes (rd : Reads) (tokenAddr : string) (d : Data) :
  pool (load_pool rd tokenAddr d) <> pool d ->
  configured (read (ld_pool rd) Ethers.ZeroAddress) = true
  /\ configured tokenAddr = true
  /\ read (pr_token0 rd) Ethers.ZeroAddress <> Ethers.ZeroAddress.
Proof.
  unfold load_pool. cbv zeta.
  destruct (configured (read (ld_pool rd) Ethers.ZeroAddress)); simpl;
    [| intros H; contradiction H; reflexivity].
  destruct (configured tokenAddr); simpl;
    [| intros H; contradiction H; reflexivity].
  destruct (String.eqb_spec (read (pr_token0 rd) Ethers.ZeroAddress) Ethers.ZeroAddress)
    as [E | N]; [intros H; contradiction H; reflexivity |].
  intros _. now repeat split.
Qed.

(** The pool figures (the two reserves and the holding value) are written
    only by a refresh for a connected account that found the loss dividend
    contract configured, a pool address, a token address from the registry
    and a first pool token other than the zero address.  In every other
    case, an unconfigured loss dividend contract included, they stay as
    they were. *)
Theorem pool_figures_change_only_with_pool (C : Contracts) (rd : Reads)
    (address : option string) (d : Data) :
  pool (loadContractData C rd address d) <> pool d ->
  JS.truthy_opt address = true
  /\ configured (lossDividend C) = true
  /\ configured (read (ld_pool rd) Ethers.ZeroAddress) = true
  /\ configured (burnToken C) = true
  /\ configured (read (bt_token rd) Ethers.ZeroAddress) = true
  /\ read (pr_token0 rd) Ethers.ZeroAddress <> Ethers.ZeroAddress.
Proof.
  intros Hne.
  destruct (loadContractData_cases C rd address d)
    as [E | (tokenAddr & d1 & Ha & Hreg & E)]; rewrite E in Hne.
  - contradiction Hne. reflexivity.
  - destruct (load_registry_frame C rd _ _ _ Hreg) as (_ & _ & _ & Hp1).
    simpl in Hp1.
    destruct (stages_view C rd tokenAddr d1)
      as (_ & _ & [Hp | (Hl & d2 & Hp2 & Hp)]); rewrite Hp in Hne.
    + rewrite Hp1 in Hne. contradiction Hne. reflexivity.
    + rewrite <- Hp1, <- Hp2 in Hne.
      destruct (load_pool_changes rd tokenAddr d2 Hne) as (Hpa & Hta & Ht0).
      split; [exact Ha |]. split; [exact Hl |]. split; [exact Hpa |].
      unfold load_registry in Hreg.
      destruct (configured (burnToken C)) eqn:Hb.
      * destruct (code_burnToken rd) as [code |]; [| discriminate].
        destruct (negb (code =? "0x")%string); injection Hreg as <- _;
          [now repeat split | discriminate].
      * injection Hreg as <- _. discriminate.
Qed.

Lemma pool_figures_change_only_with_pool_witness :
  pool refreshed <> pool initial
  /\ configured (lossDividend full_deployment) = true
  /\ read (pr_token0 healthy_reads) Ethers.ZeroAddress <> Ethers.ZeroAddress.
Proof.
  assert (Hne : pool refreshed <> pool initial) by (vm_compute; discriminate).
  split; [exact Hne |].
  destruct (pool_figures_change_only_with_pool full_deployment healthy_reads
              (Some "0x00000000000000000000000000000000000000aa") initial Hne)
    as (_ & Hl & _ & _ & _ & Ht).
  split; [exact Hl | exact Ht].
Defined.

(** *** The shipped addresses *)

Lemma getContracts_burnToken (chainId : option Z) :
  burnToken (getContracts chainId) = Ethers.ZeroAddress
  /\ lossDividend (getContracts chainId) = Ethers.ZeroAddress.
Proof.
  destruct chainId as [n |]; simpl; [| now split].
  destruct ((n =? 31337) || (n =? 1337)); now split.
Qed.

(** With the addresses [getContracts] returns, on every chain, the burn
    registry is never read: no token address, balance or allowance is ever
    stored, the pool figures stay at zero, and the burn button is disabled in
    every state. *)
Theorem shipped_addresses_disable_burn (d : Data) :
  reachable shipped d ->
  registry d = registry initial
  /\ tokenInfo d = tokenInfo initial
  /\ pool d = pool initial
  /\ forall pending connected parsed,
       Orchestrator.burn_button_enabled pending connected parsed (view_of d) = false.
Proof.
  intros H.
  assert (Inv : registry d = registry initial /\ tokenInfo d = tokenInfo initial
                /\ pool d = pool initial).
  { induction H as [| d C rd address _ IH [chainId ->] | d a b _ IH].
    - repeat split.
    - destruct IH as (Ir & It & Ip).
      destruct (getContracts_burnToken chainId) as [Hb Hl].
      destruct (loadContractData_cases (getContracts chainId) rd address d)
        as [-> | (tokenAddr & d1 & _ & Hreg & ->)]; [now repeat split |].
      unfold load_registry in Hreg. rewrite Hb in Hreg. simpl in Hreg.
      injection Hreg as <- <-.
      destruct (stages_view (getContracts chainId) rd Ethers.ZeroAddress
                  (with_offchainStatus None d)) as (-> & -> & Hp).
      split; [exact Ir |]. split; [exact It |].
      destruct Hp as [-> | (Hcfg & _)]; [exact Ip |].
      rewrite Hl in Hcfg. discriminate.
    - exact IH. }
  destruct Inv as (Ir & It & Ip). repeat split; try assumption.
  intros pending connected parsed.
  unfold Orchestrator.burn_button_enabled, view_of. simpl. rewrite It. simpl.
  now rewrite !orb_true_r.
Qed.

Lemma shipped_addresses_disable_burn_witness :
  reachable shipped
    (loadContractData (getContracts (Some 56)) healthy_reads
       (Some "0x00000000000000000000000000000000000000aa") initial)
  /\ tokenBalance
       (tokenInfo
          (loadContractData (getContracts (Some 56)) healthy_reads
             (Some "0x00000000000000000000000000000000000000aa") initial)) = 0.
Proof.
  assert (H : reachable shipped
                (loadContractData (getContracts (Some 56)) healthy_reads
                   (Some "0x00000000000000000000000000000000000000aa") initial)).
  { apply reach_refresh; [apply reach_initial |]. now exists (Some 56). }
  split; [exact H |].
  destruct (shipped_addresses_disable_burn _ H) as (_ & Ht & _).
  now rewrite Ht.
Defined.

(** *** The token address *)

(** As long as the registry answers [token()] with a non-empty string, a
    stored balance other than zero comes with a stored token address: the
    states of the refresh are states of the token view, and an enabled burn
    button has a token address for the allowance read. *)
Theorem refresh_keeps_token_known (d : Data) :
  reachable token_read_nonempty d ->
  Orchestrator.token_reachable (view_of d)
  /\ (tokenBalance (tokenInfo d) <> 0 ->
      JS.truthy_opt (tokenAddress (registry d)) = true)
  /\ forall pending connected parsed,
       Orchestrator.burn_button_enabled pending connected parsed (view_of d) = true ->
       JS.truthy_opt (tokenAddress (registry d)) = true.
Proof.
  intros H.
  assert (R : Orchestrator.token_reachable (view_of d)).
  { induction H as [| d C rd address _ IH Hok | d a b _ IH].
    - apply Orchestrator.token_reach_initial.
    - destruct (loadContractData_cases C rd address d)
        as [-> | (tokenAddr & d1 & _ & Hreg & ->)]; [exact IH |].
      destruct (stages_view C rd tokenAddr d1) as (Hr & Ht & _).
      unfold view_of. rewrite Hr, Ht.
      unfold load_registry in Hreg.
      assert (Hsame : forall d0, registry d0 = registry d -> tokenInfo d0 = tokenInfo d ->
                Orchestrator.token_reachable
                  {| Orchestrator.view_tokenAddress := tokenAddress (registry d0);
                     Orchestrator.view_tokenBalance :=
                       tokenBalance (tokenInfo (load_token rd Ethers.ZeroAddress d0)) |}).
      { intros d0 E1 E2. unfold load_token. simpl. rewrite E1, E2. exact IH. }
      destruct (configured (burnToken C));
        [| injection Hreg as <- <-; now apply Hsame].
      destruct (code_burnToken rd) as [code |]; [| discriminate].
      destruct (negb (code =? "0x")%string);
        [| injection Hreg as <- <-; now apply Hsame].
      injection Hreg as <- <-.
      assert (Htruthy : JS.truthy (read (bt_token rd) Ethers.ZeroAddress) = true).
      { unfold token_read_nonempty in Hok.
        destruct (bt_token rd) as [[| c s] |]; simpl; try reflexivity.
        contradiction Hok. reflexivity. }
      pose proof (Orchestrator.token_reach_step _ _ IH
                    (Orchestrator.token_step_address (view_of d) _ Htruthy)) as R1.
      unfold load_token.
      destruct (configured (read (bt_token rd) Ethers.ZeroAddress)); [| exact R1].
      apply (Orchestrator.token_reach_step _ _ R1).
      apply (Orchestrator.token_step_balance
               {| Orchestrator.view_tokenAddress :=
                    Some (read (bt_token rd) Ethers.ZeroAddress);
                  Orchestrator.view_tokenBalance := tokenBalance (tokenInfo d) |}).
      exact Htruthy.
    - exact IH. }
  split; [exact R |]. split.
  - apply (OrchestratorFacts.token_known_with_balance (view_of d) R).
  - intros pending connected parsed.
    apply (OrchestratorFacts.enabled_button_knows_token _ _ _ (view_of d) R).
Qed.

Lemma refresh_keeps_token_known_witness :
  tokenBalance (tokenInfo refreshed) = 500000000000000000000
  /\ JS.truthy_opt (tokenAddress (registry refreshed)) = true.
Proof.
  split; [reflexivity |].
  assert (H : reachable token_read_nonempty refreshed).
  { apply refreshed_reachable. unfold token_read_nonempty. simpl. discriminate. }
  destruct (refresh_keeps_token_known refreshed H) as (_ & Hk & _).
  apply Hk. vm_compute. discriminate.
Defined.

(** *** The holding value *)

(** The holding value stored by the refresh never exceeds the balance at
    the exact pool price bnbReserve / tokenReserve, and falls short of it by
    less than one unit plus one unit per 1e18 units of balance. *)
Theorem holding_value_bounds (bal tokenReserve bnbReserve : Z) :
  0 <= bal -> 0 < tokenReserve -> 0 <= bnbReserve ->
  0 <= holding_of bal tokenReserve bnbReserve
  /\ holding_of bal tokenReserve bnbReserve * tokenReserve <= bal * bnbReserve
  /\ bal * bnbReserve * ether
     < ((holding_of bal tokenReserve bnbReserve + 1) * ether + bal) * tokenReserve.
Proof.
  intros Hb Ht Hr. unfold holding_of. cbv zeta.
  assert (He : 0 < ether) by (unfold ether; lia).
  rewrite (Z.quot_div_nonneg (bnbReserve * ether) tokenReserve) by nia.
  pose proof (Z.div_mod (bnbReserve * ether) tokenReserve ltac:(lia)) as Hp.
  pose proof (Z.mod_pos_bound (bnbReserve * ether) tokenReserve Ht) as Hpm.
  assert (Hp0 : 0 <= bnbReserve * ether / tokenReserve)
    by (apply Z.div_pos; nia).
  revert Hp Hpm Hp0.
  generalize (bnbReserve * ether / tokenReserve) as price.
  generalize ((bnbReserve * ether) mod tokenReserve) as pm.
  intros pm price Hp Hpm Hp0.
  rewrite (Z.quot_div_nonneg (bal * price) ether) by nia.
  pose proof (Z.div_mod (bal * price) ether ltac:(lia)) as Hh.
  pose proof (Z.mod_pos_bound (bal * price) ether He) as Hhm.
  assert (Hh0 : 0 <= bal * price / ether) by (apply Z.div_pos; nia).
  revert Hh Hhm Hh0.
  generalize (bal * price / ether) as h.
  generalize ((bal * price) mod ether) as hm.
  intros hm h Hh Hhm Hh0.
  split; [exact Hh0 |].
  assert (E1 : h * ether * tokenReserve <= bal * price * tokenReserve) by nia.
  assert (E2 : bal * price * tokenReserve <= bal * (bnbReserve * ether)) by nia.
  split.
  - assert (E3 : h * tokenReserve * ether <= bal * bnbReserve * ether) by lia.
    nia.
  - assert (E4 : bal * (bnbReserve * ether) < bal * (price + 1) * tokenReserve
                 \/ bal = 0) by nia.
    destruct E4 as [E4 | ->]; [| nia].
    assert (E5 : bal * price < (h + 1) * ether) by lia.
    assert (E6 : bal * price * tokenReserve < (h + 1) * ether * tokenReserve) by nia.
    nia.
Qed.

Lemma holding_value_bounds_witness :
  (0 <= 500 /\ 0 < 3 /\ 0 <= 7)
  /\ holding_of 500 3 7 * 3 <= 500 * 7.
Proof.
  split; [lia |].
  apply (holding_value_bounds 500 3 7); lia.
Defined.

(** *** Which side of the pool the token is on *)

Lemma lower_char_idempotent (c : ascii) : lower_char (lower_char c) = lower_char c.
Proof.
  destruct c as [[|] [|] [|] [|] [|] [|] [|] [|]]; vm_compute; reflexivity.
Qed.

Lemma toLowerCase_idempotent (s : string) :
  toLowerCase (toLowerCase s) = toLowerCase s.
Proof.
  induction s as [| c s IH]; simpl; [reflexivity |].
  now rewrite lower_char_idempotent, IH.
Qed.

(** The side of the pool the token is found on does not depend on the
    letter case in which the two addresses are written: lowering either of
    them, or exchanging them, leaves the comparison as it is, and an address
    matches every re-casing of itself. *)
Theorem same_token_ignores_case (token0 tokenAddr : string) :
  same_token (toLowerCase token0) tokenAddr = same_token token0 tokenAddr
  /\ same_token token0 (toLowerCase tokenAddr) = same_token token0 tokenAddr
  /\ same_token token0 tokenAddr = same_token tokenAddr token0
  /\ (toLowerCase token0 = toLowerCase tokenAddr ->
      same_token token0 tokenAddr = true).
Proof.
  unfold same_token. rewrite !toLowerCase_idempotent.
  repeat split.
  - apply String.eqb_sym.
  - intros ->. apply String.eqb_refl.
Qed.

Lemma same_token_ignores_case_witness :
  toLowerCase "0x9Fa9620784C9691F4Df5d2e16fb2851D7132dB3E"
  = toLowerCase "0x9fa9620784c9691f4df5d2e16fb2851d7132db3e"
  /\ same_token "0x9Fa9620784C9691F4Df5d2e16fb2851D7132dB3E"
       "0x9fa9620784c9691f4df5d2e16fb2851d7132db3e" = true.
Proof.
  split; [reflexivity |].
  apply (same_token_ignores_case "0x9Fa9620784C9691F4Df5d2e16fb2851D7132dB3E"
           "0x9fa9620784c9691f4df5d2e16fb2851d7132db3e").
  reflexivity.
Defined.

End ReaderFacts.

(** ** More on inviters and on parsing *)

Module ResolutionFacts.

Import Referral Reconciler ReferralFacts ReconcilerFacts.
Local Open Scope string_scope.
Local Open Scope Z_scope.

(** The inviter of a subscription is the bound on-chain inviter, or a
    well-formed address (entered, from the URL, or the root inviter), or the
    zero address: a malformed URL value or root never gets through. *)
Theorem subscription_inviter_wellformed (cs : Ethers.Checksums)
    (onchain ref : option string) (manual root : string) :
  let resolved :=
    subscribe_inviterAddress cs onchain manual (inviterFromUrl cs ref) root in
  (bound onchain = true /\ onchain = Some resolved)
  \/ Ethers.isAddress cs resolved = true
  \/ resolved = Ethers.ZeroAddress.
Proof.
  cbv zeta. unfold subscribe_inviterAddress.
  destruct (bound onchain) eqn:Hb.
  { left. split; [reflexivity |]. destruct onchain; [reflexivity | discriminate]. }
  destruct (JS.truthy manual && Ethers.isAddress cs manual) eqn:Hm.
  { right. left. now apply andb_prop in Hm. }
  destruct (JS.truthy (inviterFromUrl cs ref)) eqn:Hu.
  { right. left. destruct (inviterFromUrl_sound cs ref) as [E | [_ E]];
      [rewrite E in Hu; discriminate | exact E]. }
  destruct (JS.truthy root && Ethers.isAddress cs root) eqn:Hr.
  { right. left. now apply andb_prop in Hr. }
  right. right. reflexivity.
Qed.

(** A leading sign is accepted by the parser of the off-chain figures: a
    minus sign in front of a decimal numeral yields the negated value, so
    an effective figure may be negative. *)
Theorem parseWeiString_signed (s : string) :
  is_decimal_numeral s = true ->
  parseWeiString (Some ("-" ++ s)) = - decimal_value s
  /\ parseWeiString (Some ("+" ++ s)) = decimal_value s.
Proof.
  intros H. pose proof H as H'. unfold is_decimal_numeral in H'.
  apply andb_prop in H' as [Ht Hd].
  assert (Htrim : forall c, JS.isStrWhiteSpaceChar c = false ->
            JS.trim (String c s) = String c s).
  { intros c Hc. unfold JS.trim. simpl JS.trimStart. rewrite Hc.
    simpl JS.trimEnd. rewrite (trimEnd_digits s Hd).
    destruct s; [discriminate | reflexivity]. }
  assert (Hval : JS.parseDigits 10 s = Some (decimal_value s)).
  { unfold JS.parseDigits. destruct s as [| c r]; [discriminate |].
    rewrite (digitsVal_positional _ 0 Hd), little_endian_zero. reflexivity. }
  assert (Hp : String.prefix "" s = true) by (destruct s; reflexivity).
  split.
  - unfold parseWeiString. simpl JS.truthy_opt. cbn [negb].
    unfold JS.BigInt. simpl append. rewrite (Htrim "-"%char eq_refl).
    cbn. rewrite Hval, Hp. reflexivity.
  - unfold parseWeiString. simpl JS.truthy_opt. cbn [negb].
    unfold JS.BigInt. simpl append. rewrite (Htrim "+"%char eq_refl).
    cbn. rewrite Hval, Hp. reflexivity.
Qed.

Lemma parseWeiString_signed_witness :
  is_decimal_numeral "250" = true
  /\ parseWeiString (Some "-250") = -250.
Proof.
  split; [reflexivity |].
  apply (proj1 (parseWeiString_signed "250" eq_refl)).
Defined.

End ResolutionFacts.

(** ** The connection prompt *)

Module PromptFacts.

Import Prompt.

(** What holds of the prompt in every state. *)
Lemma prompt_invariant (s : State) :
  reachable s ->
  (opened s <= 1)%nat
  /\ (hasAutoOpened s = false -> opened s = 0%nat)
  /\ (forall b, timer s = Some b ->
        b = false /\ hasAutoOpened s = false /\ isConnected s = false).
Proof.
  assert (Heff : forall s0,
            (opened s0 <= 1)%nat ->
            (hasAutoOpened s0 = false -> opened s0 = 0%nat) ->
            (opened (run_effect s0) <= 1)%nat
            /\ (hasAutoOpened (run_effect s0) = false -> opened (run_effect s0) = 0%nat)
            /\ (forall b, timer (run_effect s0) = Some b ->
                  b = false /\ hasAutoOpened (run_effect s0) = false
                  /\ isConnected (run_effect s0) = false)).
  { intros s0 H1 H2. unfold run_effect. simpl.
    split; [exact H1 |]. split; [exact H2 |].
    intros b. destruct (hasAutoOpened s0), (isConnected s0); simpl;
      intros E; try discriminate.
    injection E as <-. now repeat split. }
  induction 1 as [connected | s s' _ IH Hstep].
  - apply Heff; simpl; [lia | reflexivity].
  - destruct IH as (I1 & I2 & I3).
    destruct Hstep as [s connected | s | s].
    + apply Heff; simpl; assumption.
    + apply Heff; assumption.
    + unfold fire. destruct (timer s) as [[|] |] eqn:Et.
      * destruct (I3 true eq_refl) as [E _]. discriminate.
      * destruct (I3 false eq_refl) as (_ & Hh & _).
        apply Heff; simpl; [rewrite (I2 Hh); lia | discriminate].
      * split; [exact I1 |]. split; [exact I2 |].
        intros b E. rewrite Et in E. discriminate.
Qed.

(** The connection prompt opens the modal at most once in a session, and
    a timer is only ever armed while the account is not connected: a
    connection that comes first cancels it. *)
Theorem prompt_opens_at_most_once (s : State) :
  reachable s ->
  (opened s <= 1)%nat
  /\ (isConnected s = true -> timer s = None)
  /\ (hasAutoOpened s = true -> timer s = None).
Proof.
  intros H. destruct (prompt_invariant s H) as (H1 & _ & H3).
  split; [exact H1 |].
  split; intros E; destruct (timer s) as [b |] eqn:Et; try reflexivity;
    destruct (H3 b eq_refl) as (_ & Hh & Hc); congruence.
Qed.

Lemma prompt_opens_at_most_once_witness :
  reachable (fire (connection false (fire (mount false))))
  /\ opened (fire (connection false (fire (mount false)))) = 1%nat.
Proof.
  assert (H : reachable (fire (connection false (fire (mount false))))).
  { eapply reach_step; [| apply step_fire].
    eapply reach_step; [| apply step_connection].
    eapply reach_step; [| apply step_fire].
    apply reach_mount. }
  split; [exact H |].
  destruct (prompt_opens_at_most_once _ H) as (Hle & _).
  assert (Hge : (1 <= opened (fire (connection false (fire (mount false)))))%nat)
    by (simpl; lia).
  lia.
Defined.

End PromptFacts.
